(** * Campus Store chatbot: retrieval router, conversation state, session
      store, backend endpoint and web client, embedded in Rocq.

    The Python fragments come from [chatbot_review.md] and [README.md], the
    TypeScript ones from [services/api.ts], [App.tsx] and the components.
    Python [str] and JavaScript strings are modelled by [string], read as
    UTF-8 text: lengths, slices and white space are counted in characters,
    not in bytes.  Case mapping is that of the ASCII letters; floating-point
    scores are modelled by exact rationals. *)

From Stdlib Require Import ZArith QArith String Ascii List Lia DecimalString.
From stdpp Require Import base gmap strings list.
Close Scope Q_scope.
Open Scope string_scope.
Open Scope list_scope.

(* ================================================================== *)
(** * Part I: definitions                                              *)
(* ================================================================== *)

(** ** Text helpers shared by the Python and the JavaScript side *)

Module Text.

Definition dquote : ascii := ascii_of_nat 34.
Definition newline : ascii := ascii_of_nat 10.

Definition is_upper (c : ascii) : bool :=
  (65 <=? nat_of_ascii c)%nat && (nat_of_ascii c <=? 90)%nat.
Definition is_lower (c : ascii) : bool :=
  (97 <=? nat_of_ascii c)%nat && (nat_of_ascii c <=? 122)%nat.
Definition is_digit (c : ascii) : bool :=
  (48 <=? nat_of_ascii c)%nat && (nat_of_ascii c <=? 57)%nat.

Definition lower_char (c : ascii) : ascii :=
  if is_upper c then ascii_of_nat (nat_of_ascii c + 32) else c.
Definition upper_char (c : ascii) : ascii :=
  if is_lower c then ascii_of_nat (nat_of_ascii c - 32) else c.

Fixpoint map_string (f : ascii -> ascii) (s : string) : string :=
  match s with
  | EmptyString => EmptyString
  | String c s' => String (f c) (map_string f s')
  end.

(** [str.lower()] / [String.prototype.toLowerCase()] *)
Definition lower (s : string) : string := map_string lower_char s.
Definition upper (s : string) : string := map_string upper_char s.

(** [str(n)] / [`${n}`] for an integer *)
Definition of_Z (n : Z) : string := NilZero.string_of_int (Z.to_int n).

Definition chars (s : string) : list ascii := list_ascii_of_string s.
Definition of_chars (l : list ascii) : string := string_of_list_ascii l.

(** Characters.  A string holds UTF-8 text: a character is a byte below
    0x80, or a lead byte (0xC0 and above) together with the continuation
    bytes (0x80 to 0xBF) that follow it; a continuation byte that follows no
    lead byte stands alone. *)
Definition uchar : Type := list ascii.

Definition is_cont (c : ascii) : bool :=
  (128 <=? nat_of_ascii c)%nat && (nat_of_ascii c <? 192)%nat.
Definition is_lead (c : ascii) : bool := (192 <=? nat_of_ascii c)%nat.

(** The continuation bytes standing at the front of a list of characters,
    and the characters after them. *)
Fixpoint absorb (gs : list uchar) : list ascii * list uchar :=
  match gs with
  | [k] :: gs' =>
      if is_cont k
      then let '(ks, rest) := absorb gs' in (k :: ks, rest)
      else ([], gs)
  | _ => ([], gs)
  end.

(** What [absorb] splits off: continuation bytes standing alone, up to the
    first character that is not one. *)
Definition lone_cont (g : uchar) : bool :=
  match g with
  | [k] => is_cont k
  | _ => false
  end.

Fixpoint group (l : list ascii) : list uchar :=
  match l with
  | [] => []
  | c :: l' =>
      if is_lead c
      then let '(ks, rest) := absorb (group l') in (c :: ks) :: rest
      else [c] :: group l'
  end.

(** The characters of a string, and the string made of characters. *)
Definition uchars (s : string) : list uchar := group (chars s).
Definition of_uchars (l : list uchar) : string := of_chars (concat l).

(** [len(s)] *)
Definition len (s : string) : nat := length (uchars s).

(** Python [str.isspace] on one character: TAB, LF, VT, FF, CR, the four
    separators U+001C to U+001F, the blank, U+0085, U+00A0, U+1680, U+2000 to
    U+200A, U+2028, U+2029, U+202F, U+205F and U+3000.  The same set is what
    [\s] matches in a [str] pattern and what [str.split()] and [str.strip()]
    cut at. *)
Definition is_space (u : uchar) : bool :=
  match map nat_of_ascii u with
  | [n] => ((9 <=? n) && (n <=? 13) || (28 <=? n) && (n <=? 32))%nat
  | [a; b] => ((a =? 194) && ((b =? 133) || (b =? 160)))%nat
  | [a; b; c] =>
      ((a =? 225) && (b =? 154) && (c =? 128)
       || (a =? 226) && (b =? 128)
          && ((128 <=? c) && (c <=? 138) || (c =? 168) || (c =? 169) || (c =? 175))
       || (a =? 226) && (b =? 129) && (c =? 159)
       || (a =? 227) && (b =? 128) && (c =? 128))%nat
  | _ => false
  end.

(** [s[:n]] for [n >= 0]: the first [n] characters. *)
Definition prefix_slice (n : nat) (s : string) : string := of_uchars (take n (uchars s)).

(** [s] between double quotes. *)
Definition quoted (s : string) : string := String dquote (s +:+ String dquote "").

(** [s.strip()]: leading and trailing white space removed. *)
Fixpoint lstrip (l : list uchar) : list uchar :=
  match l with
  | c :: l' => if is_space c then lstrip l' else l
  | [] => []
  end.
Definition strip_chars (l : list uchar) : list uchar := rev (lstrip (rev (lstrip l))).
Definition strip (s : string) : string := of_uchars (strip_chars (uchars s)).

(** [s.split()]: the maximal runs of characters that are not white space. *)
Fixpoint split_chars (word : list uchar) (l : list uchar) : list (list uchar) :=
  match l with
  | [] => match word with [] => [] | _ => [rev word] end
  | c :: l' =>
      if is_space c
      then match word with
           | [] => split_chars [] l'
           | _ => rev word :: split_chars [] l'
           end
      else split_chars (c :: word) l'
  end.
Definition split (s : string) : list string := map of_uchars (split_chars [] (uchars s)).

(** [s.endswith(suffix)] *)
Definition ends_with (s suffix : string) : bool :=
  bool_decide (String.substring (String.length s - String.length suffix)
                 (String.length suffix) s = suffix).

End Text.

(** ** Regular expressions, as far as the patterns of the program go

    A pattern is a sequence of atoms over a type [T] of input symbols
    (characters for a [str] pattern, bytes where only ASCII classes occur);
    quantifiers are greedy and give back one symbol at a time when the rest
    of the pattern fails, which is the order in which Python's [re] explores
    matches.  [OpenGroup] and [CloseGroup] delimit capture group 1. *)

Module Regex.

Section Engine.
Context {T : Type} `{EqDecision T}.

Inductive atom :=
| Lit (text : list T)              (* literal symbols *)
| Star (cls : T -> bool)           (* [c*] *)
| Plus (cls : T -> bool)           (* [c+] *)
| Opt (cls : T -> bool)            (* [c?] *)
| OpenGroup
| CloseGroup.

Definition pattern := list atom.

(** The input left after the literal, when the input starts with it. *)
Fixpoint strip_prefix (text s : list T) : option (list T) :=
  match text, s with
  | [], _ => Some s
  | _ :: _, [] => None
  | c :: text', x :: s' => if bool_decide (c = x) then strip_prefix text' s' else None
  end.

(** Capture state: the input at the opening parenthesis, and group 1 once
    the closing one has been passed. *)
Record capture := { opened : option (list T); group1 : option (list T) }.

Definition no_capture : capture := {| opened := None; group1 := None |}.

Definition close_group (g : capture) (s : list T) : capture :=
  match opened g with
  | Some s0 => {| opened := opened g;
                  group1 := Some (take (length s0 - length s) s0) |}
  | None => g
  end.

(** Greedy repetition: take one more symbol of the class if there is one
    and the rest then matches, otherwise go on with the continuation. *)
Fixpoint star (cls : T -> bool) (k : list T -> option capture)
    (s : list T) : option capture :=
  match s with
  | x :: s' =>
      if cls x
      then match star cls k s' with
           | Some r => Some r
           | None => k s
           end
      else k s
  | [] => k []
  end.

(** Match the pattern at the start of [s]. *)
Fixpoint run (p : pattern) (g : capture) (s : list T) : option capture :=
  match p with
  | [] => Some g
  | Lit text :: p' =>
      match strip_prefix text s with
      | Some s' => run p' g s'
      | None => None
      end
  | Star cls :: p' => star cls (run p' g) s
  | Plus cls :: p' =>
      match s with
      | x :: s' => if cls x then star cls (run p' g) s' else None
      | [] => None
      end
  | Opt cls :: p' =>
      match s with
      | x :: s' =>
          if cls x
          then match run p' g s' with
               | Some r => Some r
               | None => run p' g s
               end
          else run p' g s
      | [] => run p' g s
      end
  | OpenGroup :: p' => run p' {| opened := Some s; group1 := group1 g |} s
  | CloseGroup :: p' => run p' (close_group g s) s
  end.

(** [re.search]: the match at the leftmost position that has one. *)
Fixpoint search (p : pattern) (s : list T) : option capture :=
  match run p no_capture s with
  | Some r => Some r
  | None =>
      match s with
      | [] => None
      | _ :: s' => search p s'
      end
  end.

(** [str.find]: the first position at which [text] occurs. *)
Fixpoint find (text s : list T) : option nat :=
  match strip_prefix text s with
  | Some _ => Some 0
  | None =>
      match s with
      | [] => None
      | _ :: s' => option_map S (find text s')
      end
  end.

End Engine.

Arguments atom T : clear implicits.
Arguments pattern T : clear implicits.
Arguments capture T : clear implicits.

End Regex.

(** ** The web client's API layer ([services/api.ts]) *)

Module Api.

Record PDFRecommendation := {
  doc_id : string;
  title : string;
  description : string;
  platform : string;
  public_url : string;
  filename : string;
  pages : Z;
  file_size_kb : Z;
  relevance : option string;
  priority : option string;
  tags : option (list string)
}.

Record ChatResponse := {
  reply : string;
  source : string;
  article_link : option string;
  confidence : Q;
  recommended_pdfs : option (list PDFRecommendation);
  retrieval_time_ms : option Q;
  llm_time_ms : option Q;
  total_time_ms : option Q
}.

(** What a rejected promise carries. *)
Inductive js_error :=
| NetworkError (reason : string)   (* [fetch] itself rejects *)
| Error (message : string)         (* [new Error(...)] thrown by this file *)
| SyntaxError (reason : string).   (* [response.json()] rejects *)

Record Request := {
  url : string;
  method : string;
  headers : list (string * string);
  body_message : option string;      (* JSON body: [message] *)
  body_session_id : option string    (* JSON body: [session_id], omitted when undefined *)
}.

(** A resolved [fetch]: status line and the raw body text. *)
Record Response := {
  status : Z;
  statusText : string;
  body : string
}.

(** [Response.ok] is true exactly for the 2xx statuses. *)
Definition ok (r : Response) : bool := (200 <=? status r)%Z && (status r <=? 299)%Z.

Inductive fetch_outcome :=
| FetchRejects (e : js_error)
| FetchResolves (r : Response).

(** The world an [async] function of this file runs against: the network
    and the JSON decoder behind [response.json()]. *)
Record World := {
  fetch : Request -> fetch_outcome;
  parse_chat : string -> js_error + ChatResponse
}.

Inductive console_entry :=
| LogError (label : string) (e : js_error)   (* [console.error(label, error)] *)
| LogInfo (label : string) (value : string). (* [console.log(label, value)] *)

(** An [async] function's run: what it wrote to the console and how its
    promise settled. *)
Inductive settled (A : Type) :=
| Fulfilled (a : A)
| Rejected (e : js_error).
Arguments Fulfilled {A} a.
Arguments Rejected {A} e.

Definition Async (A : Type) : Type := list console_entry * settled A.

Definition ret {A} (a : A) : Async A := ([], Fulfilled a).
Definition throw {A} (e : js_error) : Async A := ([], Rejected e).
Definition bind {A B} (m : Async A) (k : A -> Async B) : Async B :=
  match m with
  | (log, Fulfilled a) => let '(log', r) := k a in (log ++ log', r)
  | (log, Rejected e) => (log, Rejected e)
  end.
Definition try_catch {A} (m : Async A) (handler : js_error -> Async A) : Async A :=
  match m with
  | (log, Fulfilled a) => (log, Fulfilled a)
  | (log, Rejected e) => let '(log', r) := handler e in (log ++ log', r)
  end.
Definition console_error (label : string) (e : js_error) : Async unit :=
  ([LogError label e], Fulfilled tt).
Definition await_fetch (w : World) (rq : Request) : Async Response :=
  match fetch w rq with
  | FetchRejects e => throw e
  | FetchResolves r => ret r
  end.
Definition await_json (w : World) (r : Response) : Async ChatResponse :=
  match parse_chat w (body r) with
  | inl e => throw e
  | inr data => ret data
  end.

Notation "'await' x <- m ; k" := (bind m (fun x => k))
  (at level 10, x name, m at level 100, k at level 200).

(** [import.meta.env.VITE_API_URL || 'http://localhost:8000'] *)
Definition API_BASE_URL (VITE_API_URL : option string) : string :=
  match VITE_API_URL with
  | Some u => if bool_decide (u = "") then "http://localhost:8000" else u
  | None => "http://localhost:8000"
  end.

Section Client.
Variable w : World.
Variable base : string.   (* [API_BASE_URL] *)

Definition chat_request (message : string) (sessionId : option string) : Request :=
  {| url := base +:+ "/chat";
     method := "POST";
     headers := [("Content-Type", "application/json")];
     body_message := Some message;
     body_session_id := sessionId |}.

Definition stats_request : Request :=
  {| url := base +:+ "/sessions/stats";
     method := "GET";
     headers := [];
     body_message := None;
     body_session_id := None |}.

Definition sendChatMessage (message : string) (sessionId : option string)
  : Async ChatResponse :=
  try_catch
    (await response <- await_fetch w (chat_request message sessionId) ;
     await _ <- (if negb (ok response)
           then throw (Error ("API Error: " +:+ Text.of_Z (status response)
                               +:+ " " +:+ statusText response))
           else ret tt) ;
     await data <- await_json w response ;
     ret data)
    (fun error =>
       await _ <- console_error "Error sending chat message:" error ;
       throw error).

Definition checkApiHealth : Async bool :=
  try_catch
    (await response <- await_fetch w stats_request ;
     ret (ok response))
    (fun error =>
       await _ <- console_error "API health check failed:" error ;
       ret false).
End Client.

(** A request failed: the network rejected it or the status is not 2xx. *)
Definition failed (o : fetch_outcome) : bool :=
  match o with
  | FetchRejects _ => true
  | FetchResolves r => negb (ok r)
  end.

(** Two concrete worlds: a backend that answers every request with a 500
    and a machine without network. *)
Definition no_json (_ : string) : js_error + ChatResponse :=
  inl (SyntaxError "Unexpected token").
Definition failing_backend : World :=
  {| fetch := fun _ => FetchResolves
                {| status := 500; statusText := "Internal Server Error";
                   body := "Internal Server Error" |};
     parse_chat := no_json |}.
Definition offline : World :=
  {| fetch := fun _ => FetchRejects (NetworkError "Failed to fetch");
     parse_chat := no_json |}.

End Api.

(** ** Python results *)

Module Py.

Inductive exception :=
| ConnectionError (msg : string)
| Timeout (msg : string)
| HTTPError (msg : string)
| JSONDecodeError (msg : string)
| RuntimeError (msg : string)
| IndexError (msg : string)
| KeyError (key : string)
| HTTPException (status_code : Z) (detail : string).

(** [str(e)] *)
Definition str (e : exception) : string :=
  match e with
  | ConnectionError m | Timeout m | HTTPError m | JSONDecodeError m
  | RuntimeError m | IndexError m | KeyError m => m
  | HTTPException _ d => d
  end.

Inductive result (A : Type) :=
| Return (a : A)
| Raise (e : exception).
Arguments Return {A} a.
Arguments Raise {A} e.

Definition bind {A B} (m : result A) (k : A -> result B) : result B :=
  match m with
  | Return a => k a
  | Raise e => Raise e
  end.

(** [xs[i]] on a Python list: a negative index counts from the end, an
    index outside [-len, len) raises [IndexError]. *)
Definition getitem {A} (xs : list A) (i : Z) : result A :=
  let j := if (i <? 0)%Z then (i + Z.of_nat (length xs))%Z else i in
  if (j <? 0)%Z then Raise (IndexError "list index out of range")
  else match xs !! Z.to_nat j with
       | Some x => Return x
       | None => Raise (IndexError "list index out of range")
       end.

End Py.

(** ** The retrieval router ([app/rag/retriever.py] after the fixes of
    Bug 1 and Solution 2) *)

Module Retriever.
Import Py.

Definition vec := list Q.

(** Inner product, the metric of [faiss.IndexFlatIP]. *)
Fixpoint dot (a b : vec) : Q :=
  match a, b with
  | x :: a', y :: b' => (x * y + dot a' b')%Q
  | _, _ => 0%Q
  end.

(** A flat inner-product index: the stored vectors, in insertion order.
    Issue 3 of the review has the indices built as [IndexFlatIP], and
    [ingest_instructions] builds its three indices so; the FAQ index, whose
    construction the sources do not show, is taken to be one too. *)
Record IndexFlatIP := { vectors : list vec }.

Definition ntotal (index : IndexFlatIP) : nat := length (vectors index).

(** What the index reports in the slots it cannot fill: the lowest [float32]
    as score and [-1] as label. *)
Definition no_result : Q * Z := (inject_Z (- (2 ^ 128 - 2 ^ 104)), (-1)%Z).

(** Candidates in descending order of score; of two candidates with the
    same score the one stored first comes first. *)
Fixpoint insert_desc (e : Q * Z) (l : list (Q * Z)) : list (Q * Z) :=
  match l with
  | [] => [e]
  | h :: t => if Qle_bool (fst h) (fst e) then e :: l else h :: insert_desc e t
  end.

Definition ranked (index : IndexFlatIP) (q : vec) : list (Q * Z) :=
  foldr insert_desc [] (imap (fun i v => (dot q v, Z.of_nat i)) (vectors index)).

(** [index.search(q, k)] for a single query vector: the rows [scores[0]]
    and [indices[0]], each of length [k]. *)
Definition search (index : IndexFlatIP) (q : vec) (k : Z) : list Q * list Z :=
  let top := take (Z.to_nat k) (ranked index q) in
  let row := top ++ replicate (Z.to_nat k - length top) no_result in
  (map fst row, map snd row).

(** The pre-built indices a retriever holds. *)
Inductive index_name := FAQ | INSTRUCTIONS | CENGAGE | MCGRAW.

(** The calls into the embedding model and the vector library, as a run
    records them: what was passed to the call. *)
Inductive event :=
| EvEncode (texts : list string) (normalize : bool)  (* [model.encode(texts, ...)] *)
| EvBuildIndex (n : nat)                             (* [faiss.IndexFlatIP(d)] and [index.add] *)
| EvSearch (name : index_name) (index : IndexFlatIP)
    (queries : list vec) (k : Z).                    (* [index.search(queries, k)] *)

(** A computation of the retrieval code.  It reaches the embedding model
    and the vector library through the three calls below and in no other
    way: each call hands its answer to the rest of the computation. *)
Inductive prog (A : Type) : Type :=
| Ret (a : A)
| Throw (e : exception)
| Encode (texts : list string) (normalize_embeddings : bool)
    (rest : list vec -> prog A)
| NewIndex (embeddings : list vec) (rest : IndexFlatIP -> prog A)
| Search (name : index_name) (index : IndexFlatIP) (queries : list vec) (k : Z)
    (rest : list (list Q) * list (list Z) -> prog A).
Arguments Ret {A} a.
Arguments Throw {A} e.
Arguments Encode {A} texts normalize_embeddings rest.
Arguments NewIndex {A} embeddings rest.
Arguments Search {A} name index queries k rest.

Fixpoint bind {A B} (m : prog A) (f : A -> prog B) : prog B :=
  match m with
  | Ret a => f a
  | Throw e => Throw e
  | Encode texts n rest => Encode texts n (fun v => bind (rest v) f)
  | NewIndex embeddings rest => NewIndex embeddings (fun i => bind (rest i) f)
  | Search name index queries k rest =>
      Search name index queries k (fun rows => bind (rest rows) f)
  end.

Notation "'call' x <- m ; k" := (bind m (fun x => k))
  (at level 10, x name, m at level 100, k at level 200).

Definition ret {A} (a : A) : prog A := Ret a.
Definition lift {A} (r : result A) : prog A :=
  match r with
  | Return a => Ret a
  | Raise e => Throw e
  end.

(** [model.encode(texts, normalize_embeddings=n)] *)
Definition model_encode (texts : list string) (n : bool) : prog (list vec) :=
  Encode texts n Ret.

(** [faiss.IndexFlatIP(embeddings.shape[1])] followed by
    [index.add(embeddings)] *)
Definition new_index (embeddings : list vec) : prog IndexFlatIP :=
  NewIndex embeddings Ret.

(** [index.search(queries, k)]: the arrays [scores] and [indices], one row
    per query. *)
Definition index_search (name : index_name) (index : IndexFlatIP)
    (queries : list vec) (k : Z) : prog (list (list Q) * list (list Z)) :=
  Search name index queries k Ret.

(** A run: what a computation returns or raises, and the calls it made, in
    order, when the model answers [encode] for each text and the vector
    library answers [faiss] for each query vector. *)
Definition M (A : Type) : Type := list event * result A.

Fixpoint exec {A} (encode : bool -> string -> vec)
    (faiss : IndexFlatIP -> vec -> Z -> list Q * list Z)
    (p : prog A) : M A :=
  match p with
  | Ret a => ([], Return a)
  | Throw e => ([], Raise e)
  | Encode texts n rest =>
      let '(t, r) := exec encode faiss (rest (map (encode n) texts)) in
      (EvEncode texts n :: t, r)
  | NewIndex embeddings rest =>
      let '(t, r) := exec encode faiss (rest {| vectors := embeddings |}) in
      (EvBuildIndex (length embeddings) :: t, r)
  | Search name index queries k rest =>
      let rows := map (fun q => faiss index q k) queries in
      let '(t, r) := exec encode faiss (rest (map fst rows, map snd rows)) in
      (EvSearch name index queries k :: t, r)
  end.

Record FAQRetriever := {
  faq_index : IndexFlatIP;
  faq_chunks : list string;
  instructions_index : IndexFlatIP;
  instruction_chunks : list string;
  instructions_index_cengage : option IndexFlatIP;
  cengage_chunks : list string;
  instructions_index_mcgraw : option IndexFlatIP;
  mcgraw_chunks : list string
}.

Record RetrievalResult := {
  context : string;
  score : Q;
  source_id : string;
  article_link : option string
}.

(** The pattern of [re.search] in [retrieve], on the characters of the
    chunk: the literal [Article link:], any white space, an optional double
    quote, group 1 made of one or more characters other than a double quote
    and a newline, and an optional double quote. *)
Definition article_link_marker : list Text.uchar := Text.uchars "Article link:".
Definition is_dquote (c : Text.uchar) : bool := bool_decide (c = [Text.dquote]).
Definition link_char (c : Text.uchar) : bool :=
  negb (bool_decide (c = [Text.dquote])) && negb (bool_decide (c = [Text.newline])).
Definition article_link_pattern : Regex.pattern Text.uchar :=
  [ Regex.Lit article_link_marker; Regex.Star Text.is_space; Regex.Opt is_dquote;
    Regex.OpenGroup; Regex.Plus link_char; Regex.CloseGroup; Regex.Opt is_dquote ].

(** [match.group(1).strip() if match else None] *)
Definition extract_article_link (chunk : string) : option string :=
  match Regex.search article_link_pattern (Text.uchars chunk) with
  | Some m =>
      match Regex.group1 m with
      | Some g => Some (Text.of_uchars (Text.strip_chars g))
      | None => None
      end
  | None => None
  end.

(** [needle in text] for strings *)
Definition contains (needle text : string) : bool :=
  match Regex.find (Text.chars needle) (Text.chars text) with
  | Some _ => true
  | None => false
  end.

(** The platform tests of [ingest_instructions]; the second is the [elif]
    branch. *)
Definition is_cengage (text : string) : bool :=
  contains "cengage" (Text.lower text) || contains "mindtap" (Text.lower text).
Definition is_mcgraw (text : string) : bool :=
  negb (is_cengage text)
  && (contains "mcgraw" (Text.lower text) || contains "connect" (Text.lower text)).

(** The chunk made of an instruction file: a source tag, the file name and
    the stripped text on the next line. *)
Definition instruction_chunk (i : nat) (file_name text : string) : string :=
  "[SOURCE_" +:+ Text.of_Z (Z.of_nat i) +:+ "] [FILE:" +:+ file_name +:+ "]"
  +:+ String Text.newline (Text.strip text).

(** What ingestion leaves behind for the retriever. *)
Record Ingested := {
  all_chunks : list string;
  found_cengage_chunks : list string;
  found_mcgraw_chunks : list string;
  index_all : IndexFlatIP;
  index_cengage : option IndexFlatIP;
  index_mcgraw : option IndexFlatIP
}.

Section Retrieve.
(** The collection classifier ([_select_collection], whose body the source
    leaves out), and the end of the instructions branch, which the source
    replaces by a comment: what is returned there is some function of the
    source prefix, the chunk list and the rows the search returned. *)
Variable select_collection : string -> string.
Variable instructions_result :
  string -> list string -> list (list Q) -> list (list Z) -> result RetrievalResult.
Variable self : FAQRetriever.

(** The end of the FAQ branch: the result built from the first entry of
    the first row of the search. *)
Definition faq_result (scores : list (list Q)) (indices : list (list Z))
    : result RetrievalResult :=
  Py.bind (Py.bind (getitem indices 0) (fun row => getitem row 0)) (fun best_index =>
  Py.bind (Py.bind (getitem scores 0) (fun row => getitem row 0)) (fun best_score =>
  Py.bind (getitem (faq_chunks self) best_index) (fun best_chunk =>
  Return {| context := best_chunk;
            score := best_score;
            source_id := "FAQ_SOURCE_" +:+ Text.of_Z best_index;
            article_link := extract_article_link best_chunk |}))).

(** The index of the instructions branch and its chunks: the index of the
    platform when the retriever holds one, the full index otherwise. *)
Definition select_index (platform : option string)
    : index_name * IndexFlatIP * list string :=
  match (if bool_decide (platform = Some "CENGAGE")
         then instructions_index_cengage self else None) with
  | Some index => (CENGAGE, index, cengage_chunks self)
  | None =>
      match (if bool_decide (platform = Some "MCGRAW_HILL")
             then instructions_index_mcgraw self else None) with
      | Some index => (MCGRAW, index, mcgraw_chunks self)
      | None => (INSTRUCTIONS, instructions_index self, instruction_chunks self)
      end
  end.

Definition selected (query collection : string) : string :=
  if bool_decide (collection = "auto") then select_collection query else collection.

(** [FAQRetriever.retrieve(query, k, collection, platform)] *)
Definition retrieve (query : string) (k : Z) (collection : string)
    (platform : option string) : prog RetrievalResult :=
  let selected_collection := selected query collection in
  if bool_decide (selected_collection = "instructions") then
    let source_prefix := "INSTR" in
    let '(name, index, chunks) := select_index platform in
    call query_embedding <- model_encode [query] true ;
    call rows <- index_search name index query_embedding k ;
    lift (instructions_result source_prefix chunks (fst rows) (snd rows))
  else
    call query_embedding <- model_encode [query] true ;
    call rows <- index_search FAQ (faq_index self) query_embedding k ;
    lift (faq_result (fst rows) (snd rows)).

End Retrieve.

(** [model.encode(chunks)], [faiss.IndexFlatIP(embeddings.shape[1])] and
    [index.add(embeddings)]: one vector per chunk.  Without chunks the
    embedding array has no second dimension to read. *)
Definition build_index (chunks : list string) : prog IndexFlatIP :=
  call embeddings <- model_encode chunks false ;
  call _ <- (match embeddings with
             | [] => Throw (IndexError "tuple index out of range")
             | _ :: _ => ret tt
             end) ;
  new_index embeddings.

(** [if chunks:] around the construction of a platform index. *)
Definition build_index_if_any (chunks : list string) : prog (option IndexFlatIP) :=
  match chunks with
  | [] => ret None
  | _ :: _ => call index <- build_index chunks ; ret (Some index)
  end.

(** [ingest_instructions] over the instruction files, given as
    (name, text) pairs in the order of the loop; [i] is the position of the
    file.  The indices come back instead of being written to disk. *)
Definition ingest_instructions (files : list (string * string)) : prog Ingested :=
  let chunk_of i (file : string * string) := instruction_chunk i (fst file) (snd file) in
  let all := imap chunk_of files in
  let cengage :=
    omap (fun '(i, file) => if is_cengage (snd file) then Some (chunk_of i file) else None)
      (imap (fun i file => (i, file)) files) in
  let mcgraw :=
    omap (fun '(i, file) => if is_mcgraw (snd file) then Some (chunk_of i file) else None)
      (imap (fun i file => (i, file)) files) in
  call index <- build_index all ;
  call index_c <- build_index_if_any cengage ;
  call index_m <- build_index_if_any mcgraw ;
  ret {| all_chunks := all; found_cengage_chunks := cengage;
         found_mcgraw_chunks := mcgraw; index_all := index;
         index_cengage := index_c; index_mcgraw := index_m |}.


(** The index a request searches, with its name and its chunks. *)
Definition searched (self : FAQRetriever) (selected_collection : string)
    (platform : option string) : index_name * IndexFlatIP * list string :=
  if bool_decide (selected_collection = "instructions")
  then select_index self platform
  else (FAQ, faq_index self, faq_chunks self).

(** How often a trace calls the embedding model, builds an index and
    searches one. *)
Definition is_encode (e : event) : bool :=
  match e with EvEncode _ _ => true | _ => false end.
Definition is_build (e : event) : bool :=
  match e with EvBuildIndex _ => true | _ => false end.
Definition is_search (e : event) : bool :=
  match e with EvSearch _ _ _ _ => true | _ => false end.
Definition count (p : event -> bool) (t : list event) : nat :=
  length (List.filter p t).

(** An index and its chunk list go together: one vector per chunk, and no
    index when there is no chunk. *)
Definition one_vector_per_chunk (index : option IndexFlatIP) (chunks : list string) : Prop :=
  match index with
  | Some index => length (vectors index) = length chunks
  | None => chunks = []
  end.

(** The head of a ranking has the highest score. *)
Definition head_is_max (l : list (Q * Z)) : Prop :=
  match l with
  | [] => True
  | h :: t => forall x, x ∈ t -> (fst x <= fst h)%Q
  end.

(** Sample retrievers: a FAQ collection of three chunks embedded as unit
    vectors of the plane, and a retriever whose FAQ collection is empty.  The
    sample model places a refund question on the first chunk and any other
    text opposite to it. *)
Definition sample_retriever : FAQRetriever :=
  {| faq_index := {| vectors := [ [1; 0]; [0; 1]; [Qmake 3 5; Qmake 4 5] ]%Q |};
     faq_chunks := [ "Refunds are accepted within 30 days.";
                     "The store is open from 9 to 5.";
                     "Rentals are due on the last day of finals." ];
     instructions_index := {| vectors := [ [1; 0] ]%Q |};
     instruction_chunks := [ "Open Connect from Blackboard." ];
     instructions_index_cengage := None;
     cengage_chunks := [];
     instructions_index_mcgraw := Some {| vectors := [ [0; 1] ]%Q |};
     mcgraw_chunks := [ "Open Connect from Blackboard." ] |}.



Definition sample_encode (_ : bool) (text : string) : vec :=
  if bool_decide (text = "How do I get a refund?") then [1; 0]%Q else [-1; 0]%Q.

Definition always_faqs (_ : string) : string := "faqs".

(** A sample end of the instructions branch: the first chunk of the list,
    whatever the search returned. *)
Definition sample_instructions_result (source_prefix : string) (chunks : list string)
    (scores : list (list Q)) (indices : list (list Z)) : result RetrievalResult :=
  Py.bind (getitem chunks 0) (fun chunk =>
  Return {| context := chunk; score := 0%Q;
            source_id := source_prefix +:+ "_SOURCE_0"; article_link := None |}).

(** Sample chunks: one whose first link is not quoted and whose second is,
    one with a single unquoted link and one with a single quoted link. *)
Definition two_links : string :=
  "Q: How do I return a book?" +:+ String Text.newline "" +:+
  "Article link: https://a" +:+ String Text.newline "" +:+
  "Q: When is the store open?" +:+ String Text.newline "" +:+
  "Article link: " +:+ Text.quoted "https://b".



End Retriever.

(** ** The session store (Solution 1 of the review) *)

Module Store.
Import Py.

Record Turn := { role : string; content : string }.

Record Session := {
  history : list Turn;
  awaiting_course_code : bool;
  stored_intent : option string;
  stored_platform : option string;
  last_activity : Z            (* a [datetime], in microseconds *)
}.

(** [timedelta(hours=1)] *)
Definition SESSION_TIMEOUT : Z := 3600 * 1000000.

Definition new_session (now : Z) : Session :=
  {| history := [];
     awaiting_course_code := false;
     stored_intent := None;
     stored_platform := None;
     last_activity := now |}.

(** [session["last_activity"] = now] *)
Definition set_last_activity (now : Z) (s : Session) : Session :=
  {| history := history s;
     awaiting_course_code := awaiting_course_code s;
     stored_intent := stored_intent s;
     stored_platform := stored_platform s;
     last_activity := now |}.

(** [sessions[session_id]] *)
Definition lookup_session (sessions : gmap string Session) (session_id : string)
    : result Session :=
  match sessions !! session_id with
  | Some s => Return s
  | None => Raise (KeyError session_id)
  end.

(** [get_or_create_session]; [now] is the reading of [datetime.now()].
    Returns the dictionary after the call and the session handed out. *)
Definition get_or_create_session (now : Z) (session_id : string)
    (sessions : gmap string Session) : gmap string Session * result Session :=
  let sessions :=
    match sessions !! session_id with
    | None => <[session_id := new_session now]> sessions
    | Some _ => sessions
    end in
  match lookup_session sessions session_id with
  | Raise e => (sessions, Raise e)
  | Return s =>
      let sessions := <[session_id := set_last_activity now s]> sessions in
      (sessions, lookup_session sessions session_id)
  end.

Definition is_expired (now : Z) (data : Session) : bool :=
  (SESSION_TIMEOUT <? now - last_activity data)%Z.

(** [cleanup_expired_sessions]: collect the expired ids, then delete them
    one by one. *)
Definition expired_ids (now : Z) (sessions : gmap string Session) : list string :=
  map fst (List.filter (fun item => is_expired now (snd item)) (map_to_list sessions)).

Definition cleanup_expired_sessions (now : Z) (sessions : gmap string Session)
    : gmap string Session :=
  foldl (fun m sid => delete sid m) sessions (expired_ids now sessions).

End Store.

(** ** Conversation state handling and the contextual query (Bugs 2 and 3,
    Solution 4 of the review) *)

Module Conversation.
Import Store.

(** The values the state handling leaves for the rest of the request. *)
Record Slots := {
  course_code : option string;
  intent : option string;
  platform : option string
}.

Section Chat.
(** [extract_course_code] is called by the fix of Bug 2 and defined nowhere
    in the sources; [detect_intent] stands for the branch the source
    abbreviates to a comment. *)
Variable extract_course_code : string -> option string.
Variable detect_intent : string -> Session -> Session * Slots.

(** The state handling of the [/chat] handler. *)
Definition state_handling (message : string) (session : Session) : Session * Slots :=
  if awaiting_course_code session then
    let course_code := extract_course_code message in
    let intent := stored_intent session in
    let platform := stored_platform session in
    ({| history := history session;
        awaiting_course_code := false;
        stored_intent := None;
        stored_platform := None;
        last_activity := last_activity session |},
     {| course_code := course_code; intent := intent; platform := platform |})
  else detect_intent message session.

(** [chat_history.append({"role": "user", "content": message})] *)
Definition append_user_message (message : string) (session : Session) : Session :=
  {| history := history session ++ [ {| role := "user"; content := message |} ];
     awaiting_course_code := awaiting_course_code session;
     stored_intent := stored_intent session;
     stored_platform := stored_platform session;
     last_activity := last_activity session |}.

(** State handling first, the append to the history after it. *)
Definition handle_user_message (message : string) (session : Session)
    : Session * Slots :=
  let '(session, slots) := state_handling message session in
  (append_user_message message session, slots).

End Chat.

(** Modelled from the spec: [extract_course_code], which the code calls and
    no source file defines.  The spec asks for a strict course-code pattern
    that finds [BIO101] inside a sentence; the pattern taken here is a run of
    capital letters directly followed by a run of digits, searched from the
    left. *)
Definition course_code_pattern : Regex.pattern ascii :=
  [ Regex.OpenGroup; Regex.Plus Text.is_upper; Regex.Plus Text.is_digit;
    Regex.CloseGroup ].

(** Modelled from the spec: [extract_course_code] returns the first match
    of the course-code pattern in the message, or [None] when there is
    none. *)
Definition extract_course_code_spec (message : string) : option string :=
  match Regex.search course_code_pattern (Text.chars message) with
  | Some m => option_map Text.of_chars (Regex.group1 m)
  | None => None
  end.

Section Request.
Variable R : Type.
Variable detect_intent : string -> Session -> Session * Slots.
Variable retrieval : string -> Session -> Slots -> R.

(** Modelled from the spec: what follows the state handling in the [/chat]
    handler, whose body no source file shows.  The sources give the state
    handling and the append (above) and say that retrieval comes after them;
    the transition table of the spec says that, the slot once resolved, the
    request proceeds with retrieval.  [retrieval] stands for the call of the
    router: it is given the message, the session as the state handling left
    it and the merged slots. *)
Definition handle_message (message : string) (session : Session) : Session * R :=
  let '(session, slots) :=
    handle_user_message extract_course_code_spec detect_intent message session in
  (session, retrieval message session slots).

End Request.

Definition pronouns : list string := ["it"; "that"; "this"; "there"; "where"].

(** The content of the first assistant message of a list (the loop over
    [reversed(history)]). *)
Fixpoint first_assistant (msgs : list Turn) : option string :=
  match msgs with
  | [] => None
  | msg :: rest =>
      if bool_decide (role msg = "assistant") then Some (content msg)
      else first_assistant rest
  end.

(** [build_contextual_query] *)
Definition build_contextual_query (message : string) (history : list Turn) : string :=
  if (length history =? 0)%nat || (length history <? 2)%nat then message
  else
    match first_assistant (rev history) with
    | None => message
    | Some last_response =>
        if bool_decide (last_response = "") then message
        else if existsb (fun pronoun =>
                   bool_decide (pronoun ∈ Text.split (Text.lower message))) pronouns
        then Text.prefix_slice 200 last_response +:+ " " +:+ message
        else message
    end.

(** Vocabulary for the statements about the contextual query. *)
Definition not_assistant (t : Turn) : Prop := role t <> "assistant".

Definition has_pronoun (message : string) : Prop :=
  exists p, p ∈ pronouns /\ p ∈ Text.split (Text.lower message).

(** Sample data: a conversation about McGraw Hill Connect, and the same
    conversation while the bot waits for a course code. *)
Definition sample_history : list Turn :=
  [ {| role := "user"; content := "How do I access McGraw Hill?" |};
    {| role := "assistant"; content := "Open McGraw Hill Connect from Blackboard." |} ].

Definition sample_waiting : Session :=
  {| history := sample_history;
     awaiting_course_code := true;
     stored_intent := Some "IA_ACCESS_ISSUE";
     stored_platform := Some "CENGAGE";
     last_activity := 0 |}.

Definition long_reply : string :=
  "To open McGraw Hill Connect, sign in to Blackboard, open your course, " +:+
  "choose Tools in the course menu, then select McGraw Hill Connect and " +:+
  "follow the registration prompts that appear on the screen. " +:+
  "If the link is missing, contact the Campus Store.".

Definition long_history : list Turn :=
  [ {| role := "user"; content := "How do I access McGraw Hill?" |};
    {| role := "assistant"; content := long_reply |} ].

Definition long_message : string :=
  "I bought the access code for my biology class two weeks ago and the " +:+
  "professor said we need to register before Friday, but every time I " +:+
  "click the link in Blackboard it sends me back to the login page, " +:+
  "so what should I do now?".

Definition no_detection (_ : string) (session : Session) : Session * Slots :=
  (session, {| course_code := None; intent := None; platform := None |}).

End Conversation.

(** ** The backend of [README.md]: model client and [/chat] endpoint *)

Module Backend.
Import Py.

(** The decoded body of an Ollama reply, as far as [LlamaClient.chat]
    looks at it; [repr] is the text [f"{data}"] prints. *)
Inductive ollama_json :=
| NoMessageKey (repr : string)
| MessageWithoutContent (repr : string)
| MessageContent (content : string).

Record OllamaRequest := {
  target : string;
  timeout : Z;
  model : string;
  messages : list (string * string);   (* role, content *)
  stream : bool
}.

(** What [requests.post] does: raise (connection refused, timeout) or
    return a response with a status code and a body to decode. *)
Inductive post_outcome :=
| PostRaises (e : exception)
| PostReturns (status_code : Z) (reason : string) (json : result ollama_json).

Definition system_prompt : string :=
  "You are a Campus Store assistant. " +:+
  "Only answer questions related to store hours, " +:+
  "returns, products, and general policies. " +:+
  "If you do not know, say you do not know.".

Definition OLLAMA_URL : string := "http://localhost:11434/api/chat".

(** [Response.raise_for_status]: an [HTTPError] for the 4xx and 5xx
    statuses. *)
Definition raise_for_status (status_code : Z) (reason : string) : result unit :=
  if (400 <=? status_code)%Z && (status_code <? 500)%Z
  then Raise (HTTPError (Text.of_Z status_code +:+ " Client Error: " +:+ reason
                           +:+ " for url: " +:+ OLLAMA_URL))
  else if (500 <=? status_code)%Z && (status_code <? 600)%Z
  then Raise (HTTPError (Text.of_Z status_code +:+ " Server Error: " +:+ reason
                           +:+ " for url: " +:+ OLLAMA_URL))
  else Return tt.

Notation "'do' x <- m ; k" := (bind m (fun x => k))
  (at level 10, x name, m at level 100, k at level 200).

(** [LlamaClient.chat] *)
Definition LlamaClient_chat (post : OllamaRequest -> post_outcome)
    (user_message : string) : result string :=
  let payload :=
    {| target := OLLAMA_URL;
       timeout := 180;
       model := "llama3:8b";
       messages := [("system", system_prompt); ("user", user_message)];
       stream := false |} in
  match post payload with
  | PostRaises e => Raise e
  | PostReturns status_code reason json =>
      do _ <- raise_for_status status_code reason ;
      do data <- json ;
      match data with
      | NoMessageKey repr | MessageWithoutContent repr =>
          Raise (RuntimeError ("Malformed Ollama response: " +:+ repr))
      | MessageContent content => Return content
      end
  end.

Record ChatRequest := { message : string }.
Record ChatResponse := { reply : string }.

(** [@app.post("/chat")]: any exception of the model call is re-raised as
    [HTTPException(status_code=500, detail=str(e))]. *)
Definition chat (llm : string -> result string) (payload : ChatRequest)
    : result ChatResponse :=
  match llm (message payload) with
  | Return reply => Return {| reply := reply |}
  | Raise e => Raise (HTTPException 500 (str e))
  end.

Definition reason_phrase (status_code : Z) : string :=
  if (status_code =? 200)%Z then "OK"
  else if (status_code =? 500)%Z then "Internal Server Error"
  else "".

(** What the HTTP framework sends for the endpoint's outcome: status 200
    with the response model on return, the status and the detail of an
    [HTTPException], a bare 500 for any other exception.  The framework is
    not part of the sources: [to_json key value] stands for the body it
    makes of the JSON object with the one member [key]. *)
Definition serve (to_json : string -> string -> string) (r : result ChatResponse)
    : Api.Response :=
  match r with
  | Return resp =>
      {| Api.status := 200; Api.statusText := reason_phrase 200;
         Api.body := to_json "reply" (reply resp) |}
  | Raise (HTTPException code detail) =>
      {| Api.status := code; Api.statusText := reason_phrase code;
         Api.body := to_json "detail" detail |}
  | Raise _ =>
      {| Api.status := 500; Api.statusText := reason_phrase 500;
         Api.body := "Internal Server Error" |}
  end.

(** The backend as the browser sees it: [POST .../chat] with a message
    runs the endpoint against the model server behind [post]; [other] is
    what the framework answers to every other request. *)
Definition deployed (post : OllamaRequest -> post_outcome)
    (to_json : string -> string -> string)
    (other : Api.Request -> Api.fetch_outcome)
    (parse : string -> Api.js_error + Api.ChatResponse) : Api.World :=
  {| Api.fetch := fun rq =>
       match Api.body_message rq with
       | Some m =>
           if Text.ends_with (Api.url rq) "/chat" && bool_decide (Api.method rq = "POST")
           then Api.FetchResolves
                  (serve to_json (chat (LlamaClient_chat post) {| message := m |}))
           else other rq
       | None => other rq
       end;
     Api.parse_chat := parse |}.

(** A sample body for a JSON object with one member, for values that need
    no escaping, and a framework that knows no other route. *)
Definition json_object1 (key value : string) : string :=
  "{" +:+ Text.quoted key +:+ ":" +:+ Text.quoted value +:+ "}".

Definition not_found (_ : Api.Request) : Api.fetch_outcome :=
  Api.FetchResolves {| Api.status := 404; Api.statusText := "Not Found";
                       Api.body := json_object1 "detail" "Not Found" |}.

(** A model server that does not answer within the 180 s timeout. *)
Definition ollama_timeout (_ : OllamaRequest) : post_outcome :=
  PostRaises (Timeout "Read timed out. (read timeout=180)").

End Backend.

(** ** The web client's top component ([App.tsx]) *)

Module App.
Import Api.

Inductive message_type := user | assistant | system.

Record Message := {
  id : string;
  type : message_type;
  content : string;
  timestamp : Z;
  confidence : option Q;
  source : option string;
  articleLink : option (option string)   (* absent, [null] or a link *)
}.

Inductive relevance_level := best | related | relevant.

Record PDFRecommendation := {
  pdf_id : string;
  pdf_title : string;
  pdf_description : string;
  pdf_platform : string;
  pdf_relevance : relevance_level;
  lastUpdated : string;
  pageCount : Z;
  pdfUrl : string
}.

Inductive api_status := connected | disconnected | checking.

Record State := {
  messages : list Message;
  pdfRecommendations : list PDFRecommendation;
  isSidebarOpen : bool;
  sessionId : string;
  isLoading : bool;
  apiStatus : api_status
}.

(** [pdf.platform.charAt(0).toUpperCase() + pdf.platform.slice(1)] *)
Definition capitalize (s : string) : string :=
  match s with
  | EmptyString => EmptyString
  | String c rest => String (Text.upper_char c) rest
  end.

Definition formatPDF (pdf : Api.PDFRecommendation) : PDFRecommendation :=
  let normalizedRelevance :=
    match Api.relevance pdf with
    | Some r => if bool_decide (Text.lower r = "") then "relevant" else Text.lower r
    | None => "relevant"
    end in
  let relevance :=
    if bool_decide (normalizedRelevance = "best match") then best
    else if bool_decide (normalizedRelevance = "best") then best
    else if bool_decide (normalizedRelevance = "related") then related
    else relevant in
  {| pdf_id := Api.doc_id pdf;
     pdf_title := Api.title pdf;
     pdf_description := Api.description pdf;
     pdf_platform := capitalize (Api.platform pdf);
     pdf_relevance := relevance;
     lastUpdated := "Recently";
     pageCount := Api.pages pdf;
     pdfUrl := Api.public_url pdf |}.

Definition apology : string :=
  "⚠️ Sorry, I'm having trouble connecting to the server. Please try again.".

Definition with_messages (st : State) (ms : list Message) : State :=
  {| messages := ms; pdfRecommendations := pdfRecommendations st;
     isSidebarOpen := isSidebarOpen st; sessionId := sessionId st;
     isLoading := isLoading st; apiStatus := apiStatus st |}.
Definition with_pdfs (st : State) (ps : list PDFRecommendation) : State :=
  {| messages := messages st; pdfRecommendations := ps;
     isSidebarOpen := isSidebarOpen st; sessionId := sessionId st;
     isLoading := isLoading st; apiStatus := apiStatus st |}.
Definition with_loading (st : State) (b : bool) : State :=
  {| messages := messages st; pdfRecommendations := pdfRecommendations st;
     isSidebarOpen := isSidebarOpen st; sessionId := sessionId st;
     isLoading := b; apiStatus := apiStatus st |}.
Definition with_status (st : State) (a : api_status) : State :=
  {| messages := messages st; pdfRecommendations := pdfRecommendations st;
     isSidebarOpen := isSidebarOpen st; sessionId := sessionId st;
     isLoading := isLoading st; apiStatus := a |}.

(** [handleSendMessage]; [t0] and [t1] are the clock readings
    ([Date.now()]) when the message is sent and when the request has
    settled.  Returns the console output and the component state after the
    [finally] block. *)
Definition handleSendMessage (w : World) (base : string) (t0 t1 : Z)
    (st : State) (content : string) : list console_entry * State :=
  let userMessage :=
    {| id := Text.of_Z t0; type := user; content := content; timestamp := t0;
       confidence := None; source := None; articleLink := None |} in
  let st := with_messages st (messages st ++ [userMessage]) in
  let st := with_loading st true in
  let '(log, outcome) := sendChatMessage w base content (Some (sessionId st)) in
  let '(log, st) :=
    match outcome with
    | Fulfilled response =>
        let assistantMessage :=
          {| id := Text.of_Z (t1 + 1); type := assistant;
             content := Api.reply response; timestamp := t1;
             confidence := Some (Api.confidence response);
             source := Some (Api.source response);
             articleLink := Some (Api.article_link response) |} in
        let st := with_messages st (messages st ++ [assistantMessage]) in
        let '(log, st) :=
          match Api.recommended_pdfs response with
          | Some (pdf :: pdfs) =>
              let formattedPDFs := map formatPDF (pdf :: pdfs) in
              (log ++ [LogInfo "📄 PDF Recommendations loaded:"
                         (Text.of_Z (Z.of_nat (length formattedPDFs)))],
               with_pdfs st formattedPDFs)
          | _ => (log, with_pdfs st [])
          end in
        (log, match apiStatus st with
              | connected => st
              | _ => with_status st connected
              end)
    | Rejected error =>
        let errorMessage :=
          {| id := Text.of_Z (t1 + 1); type := system;
             content := apology; timestamp := t1;
             confidence := None; source := None; articleLink := None |} in
        (log ++ [LogError "Error sending message:" error],
         with_status (with_messages st (messages st ++ [errorMessage])) disconnected)
    end in
  (log, with_loading st false).

Definition initial (sid : string) : State :=
  {| messages := []; pdfRecommendations := []; isSidebarOpen := true;
     sessionId := sid; isLoading := false; apiStatus := checking |}.

End App.

(** ** The other requests of the API layer ([services/api.ts]) *)

Module ApiSessions.
Import Api.

Record SessionSummary := {
  id : string;
  history_length : Z;
  awaiting_course_code : bool;
  last_activity : string;
  age_minutes : Q
}.

Record SessionStats := {
  active_sessions : Z;
  sessions : list SessionSummary
}.

Section Client.
Variable w : World.
(** The decoder behind [response.json()] for the statistics. *)
Variable parse_stats : string -> js_error + SessionStats.
Variable base : string.

(** [getSessionStats] *)
Definition getSessionStats : Async SessionStats :=
  try_catch
    (await response <- await_fetch w (stats_request base) ;
     await _ <- (if negb (ok response)
           then throw (Error ("API Error: " +:+ Text.of_Z (status response)))
           else ret tt) ;
     match parse_stats (body response) with
     | inl e => throw e
     | inr data => ret data
     end)
    (fun error =>
       await _ <- console_error "Error fetching session stats:" error ;
       throw error).

Definition clear_request (sessionId : string) : Request :=
  {| url := base +:+ "/sessions/" +:+ sessionId;
     method := "DELETE";
     headers := [];
     body_message := None;
     body_session_id := None |}.

(** [clearSession] *)
Definition clearSession (sessionId : string) : Async unit :=
  try_catch
    (await response <- await_fetch w (clear_request sessionId) ;
     if negb (ok response)
     then throw (Error ("API Error: " +:+ Text.of_Z (status response)))
     else ret tt)
    (fun error =>
       await _ <- console_error "Error clearing session:" error ;
       throw error).
End Client.

(** A backend that answers every request with an empty 200. *)
Definition healthy_backend : World :=
  {| fetch := fun _ => FetchResolves {| status := 200; statusText := "OK"; body := "{}" |};
     parse_chat := no_json |}.

Definition no_stats (_ : string) : js_error + SessionStats :=
  inl (SyntaxError "Unexpected token").
Definition empty_stats (_ : string) : js_error + SessionStats :=
  inr {| active_sessions := 0; sessions := [] |}.

End ApiSessions.

(** ** JavaScript string helpers of the components *)

Module Js.

(** White space and line terminators of [String.prototype.trim], on one
    character: TAB, LF, VT, FF, CR, the blank, U+00A0, U+1680, U+2000 to
    U+200A, U+2028, U+2029, U+202F, U+205F, U+3000 and U+FEFF. *)
Definition is_space (u : Text.uchar) : bool :=
  match map nat_of_ascii u with
  | [n] => ((9 <=? n) && (n <=? 13) || (n =? 32))%nat
  | [a; b] => ((a =? 194) && (b =? 160))%nat
  | [a; b; c] =>
      ((a =? 225) && (b =? 154) && (c =? 128)
       || (a =? 226) && (b =? 128)
          && ((128 <=? c) && (c <=? 138) || (c =? 168) || (c =? 169) || (c =? 175))
       || (a =? 226) && (b =? 129) && (c =? 159)
       || (a =? 227) && (b =? 128) && (c =? 128)
       || (a =? 239) && (b =? 187) && (c =? 191))%nat
  | _ => false
  end.

Fixpoint trim_start (l : list Text.uchar) : list Text.uchar :=
  match l with
  | c :: l' => if is_space c then trim_start l' else l
  | [] => []
  end.

(** [s.trim()] *)
Definition trim_chars (l : list Text.uchar) : list Text.uchar :=
  rev (trim_start (rev (trim_start l))).
Definition trim (s : string) : string := Text.of_uchars (trim_chars (Text.uchars s)).

(** [s.includes(needle)] *)
Definition includes (s needle : string) : bool := Retriever.contains needle s.

(** [s.startsWith(prefix)] *)
Definition startsWith (s prefix : string) : bool :=
  match Regex.strip_prefix (Text.chars prefix) (Text.chars s) with
  | Some _ => true
  | None => false
  end.

End Js.

(** ** The message box ([ChatInput], in the components file) *)

Module ChatInput.

(** A draft made of white space only. *)
Definition blank (message : string) : Prop :=
  Forall (fun c => Js.is_space c = true) (Text.uchars message).

(** What one event does: the text handed to [onSendMessage], if any, and
    the draft left in the box. *)
Record effect := { sent : option string; draft : string }.

(** [handleSubmit], for the draft [message] and the [disabled] prop. *)
Definition handleSubmit (message : string) (disabled : bool) : effect :=
  if negb (bool_decide (Js.trim message = "")) && negb disabled
  then {| sent := Some message; draft := "" |}
  else {| sent := None; draft := message |}.

(** [handleKeyDown], for the key and the shift state of the event. *)
Definition handleKeyDown (key : string) (shiftKey : bool)
    (message : string) (disabled : bool) : effect :=
  if bool_decide (key = "Enter") && negb shiftKey
  then handleSubmit message disabled
  else {| sent := None; draft := message |}.

(** The message box wired to the chat as in [App]: [onSendMessage] is
    [handleSendMessage] and [disabled] is the loading flag. *)
Definition submit (w : Api.World) (base : string) (t0 t1 : Z)
    (st : App.State) (message : string) : App.State * string :=
  let e := handleSubmit message (App.isLoading st) in
  match sent e with
  | Some content => (snd (App.handleSendMessage w base t0 t1 st content), draft e)
  | None => (st, draft e)
  end.

End ChatInput.

(** ** Static PDF recommendations ([updatePDFRecommendations] and
    [extractPlatformFromSource] of [App.tsx]) *)

Module Pdf.

Record PDFRecommendation := {
  id : string;
  title : string;
  description : string;
  platform : string;
  relevance : App.relevance_level;
  lastUpdated : string;
  pageCount : Z
}.

(** [extractPlatformFromSource] *)
Definition extractPlatformFromSource (source query : string) : string :=
  let sourceLower := Text.lower source in
  let queryLower := Text.lower query in
  if Js.includes sourceLower "cengage" || Js.includes queryLower "cengage"
     || Js.includes queryLower "mindtap" then "cengage"
  else if Js.includes sourceLower "mcgraw" || Js.includes queryLower "mcgraw"
          || Js.includes queryLower "connect" then "mcgraw"
  else if Js.includes sourceLower "pearson" || Js.includes queryLower "pearson"
          || Js.includes queryLower "mylab" then "pearson"
  else if Js.includes sourceLower "simucase" || Js.includes queryLower "simucase"
  then "simucase"
  else if Js.includes sourceLower "bedford" || Js.includes queryLower "bedford"
  then "bedford"
  else if Js.includes sourceLower "sage" || Js.includes queryLower "sage"
  then "sage"
  else "general".

Definition cengage_mindtap : PDFRecommendation :=
  {| id := "1"; title := "Cengage MindTap Access Guide";
     description := "Step-by-step instructions for accessing Cengage MindTap through Immediate Access";
     platform := "Cengage"; relevance := App.best;
     lastUpdated := "Jan 27, 2026"; pageCount := 3 |}.
Definition cengage_etextbook : PDFRecommendation :=
  {| id := "2"; title := "Cengage eTextbook Guide";
     description := "How to access your Cengage eTextbook through VitalSource";
     platform := "Cengage"; relevance := App.related;
     lastUpdated := "Jan 27, 2026"; pageCount := 2 |}.
Definition mcgraw_connect : PDFRecommendation :=
  {| id := "3"; title := "McGraw Hill Connect Access";
     description := "Complete guide to accessing McGraw Hill Connect through Blackboard";
     platform := "McGraw Hill"; relevance := App.best;
     lastUpdated := "Jan 27, 2026"; pageCount := 4 |}.
Definition mcgraw_tools : PDFRecommendation :=
  {| id := "4"; title := "McGraw Hill Tools Navigation";
     description := "How to access materials through the Tools menu";
     platform := "McGraw Hill"; relevance := App.related;
     lastUpdated := "Jan 27, 2026"; pageCount := 3 |}.
Definition pearson_mylab : PDFRecommendation :=
  {| id := "5"; title := "Pearson MyLab & Mastering";
     description := "Guide for accessing Pearson platforms through Immediate Access";
     platform := "Pearson"; relevance := App.best;
     lastUpdated := "Jan 27, 2026"; pageCount := 4 |}.
Definition simucase_setup : PDFRecommendation :=
  {| id := "6"; title := "SimuCase Platform Setup";
     description := "Complete walkthrough for redeeming your SimuCase access code";
     platform := "SimuCase"; relevance := App.best;
     lastUpdated := "Jan 27, 2026"; pageCount := 5 |}.
Definition immediate_access : PDFRecommendation :=
  {| id := "7"; title := "Immediate Access Overview";
     description := "Complete guide to CBU's Immediate Access program";
     platform := "General"; relevance := App.best;
     lastUpdated := "Feb 1, 2026"; pageCount := 6 |}.
Definition troubleshooting : PDFRecommendation :=
  {| id := "99"; title := "Browser & Cookie Troubleshooting";
     description := "Common browser issues and how to fix them";
     platform := "General"; relevance := App.relevant;
     lastUpdated := "Jan 27, 2026"; pageCount := 2 |}.

(** [updatePDFRecommendations]: the list handed to
    [setPdfRecommendations]; [source] is [response.source], absent or not. *)
Definition updatePDFRecommendations (query : string) (source : option string)
    : list PDFRecommendation :=
  let lowerQuery := Text.lower query in
  let source := match source with
                | Some s => s      (* [response.source || ''] *)
                | None => ""
                end in
  let platform := extractPlatformFromSource source lowerQuery in
  let recs := [] in
  let recs :=
    if bool_decide (platform = "cengage")
    then let recs := recs ++ [cengage_mindtap] in
         if Js.includes lowerQuery "textbook" then recs ++ [cengage_etextbook] else recs
    else recs in
  let recs :=
    if bool_decide (platform = "mcgraw") || bool_decide (platform = "connect")
    then recs ++ [mcgraw_connect] ++ [mcgraw_tools]
    else recs in
  let recs := if bool_decide (platform = "pearson") then recs ++ [pearson_mylab] else recs in
  let recs := if bool_decide (platform = "simucase") then recs ++ [simucase_setup] else recs in
  let recs :=
    if Js.includes lowerQuery "immediate access" then recs ++ [immediate_access] else recs in
  if (0 <? length recs)%nat then recs ++ [troubleshooting] else recs.

Definition platforms : list string :=
  ["cengage"; "mcgraw"; "pearson"; "simucase"; "bedford"; "sage"; "general"].

End Pdf.

(** ** The request [LlamaClient.chat] posts *)

Module Ollama.
Import Backend.

(** The [payload] of [LlamaClient.chat], with the URL and the timeout of
    the [requests.post] call. *)
Definition chat_payload (user_message : string) : OllamaRequest :=
  {| target := OLLAMA_URL;
     timeout := 180;
     model := "llama3:8b";
     messages := [("system", system_prompt); ("user", user_message)];
     stream := false |}.

(** A model server that answers every question with the same sentence. *)
Definition ollama_echo (_ : OllamaRequest) : post_outcome :=
  PostReturns 200 "OK" (Py.Return (MessageContent "We are open from 9 to 5.")).

End Ollama.

(** ** Dual retrieval (Solution 3, option B of the review) *)

Module Routing.
Import Py Retriever.

Section Dual.
Variable select_collection : string -> string.
Variable instructions_result :
  string -> list string -> list (list Q) -> list (list Z) -> result RetrievalResult.
Variable self : FAQRetriever.


End Dual.

End Routing.

(** Sample instruction files for ingestion. *)

Module Files.

Definition sample_files : list (string * string) :=
  [ ("cengage.txt", "Cengage MindTap access");
    ("connect.txt", "McGraw Hill Connect steps");
    ("other.txt", "General help") ].



End Files.

(** ** Lines of a text: [text.split('\n')] and ['\n'.join(lines)] *)

Module Lines.

Fixpoint split_chars (l : list ascii) : list (list ascii) :=
  match l with
  | [] => [[]]
  | c :: l' =>
      if Ascii.eqb c Text.newline then [] :: split_chars l'
      else match split_chars l' with
           | line :: rest => (c :: line) :: rest
           | [] => [[c]]
           end
  end.

(** [text.split('\n')]: never empty, one more line than there are
    newlines. *)
Definition split (text : string) : list string :=
  map Text.of_chars (split_chars (Text.chars text)).

(** ['\n'.join(lines)] *)
Fixpoint join (lines : list string) : string :=
  match lines with
  | [] => ""
  | [line] => line
  | line :: rest => line +:+ String Text.newline (join rest)
  end.

End Lines.

(** ** Chunking an instruction file by section (option B of the chunking
    strategy in the review) *)

Module Chunking.

Definition headers : list string :=
  ["PROBLEM:"; "STEP-BY-STEP RESOLUTION:"; "EXPECTED RESULT:"].

(** [line.strip() in [...]] *)
Definition is_header (line : string) : bool :=
  bool_decide (Text.strip line ∈ headers).

(** [if current_section: sections.append('\n'.join(current_section))] *)
Definition flush (sections : list string) (current_section : list string)
    : list string :=
  match current_section with
  | [] => sections
  | _ :: _ => sections ++ [Lines.join current_section]
  end.

(** The loop over the lines, with the two lists it updates. *)
Fixpoint scan (lines : list string) (sections : list string)
    (current_section : list string) : list string :=
  match lines with
  | [] => flush sections current_section
  | line :: rest =>
      if is_header line
      then scan rest (flush sections current_section) [line]
      else scan rest sections (current_section ++ [line])
  end.

(** [chunk_instruction_file] *)
Definition chunk_instruction_file (text : string) : list string :=
  scan (Lines.split text) [] [].

Definition count_headers (lines : list string) : nat :=
  length (List.filter is_header lines).

End Chunking.

(** ** Rendering a message ([ChatMessage.formatContent]) *)

Module ChatMessage.

Inductive part :=
| Plain (text : list ascii)      (* a string pushed to [parts] *)
| Bold (text : list ascii).      (* a [<strong>] element *)

Definition stars : list ascii := Text.chars "**".

(** What [.] matches on the ASCII range: anything but LF and CR. *)
Definition dot (c : ascii) : bool :=
  negb (Ascii.eqb c Text.newline) && negb (Ascii.eqb c (ascii_of_nat 13)).

(** The lazy group and the closing stars: the shortest run of [.]
    characters after which the stars follow; with it, the input after the
    stars. *)
Fixpoint find_close (s : list ascii) : option (list ascii * list ascii) :=
  match Regex.strip_prefix stars s with
  | Some rest => Some ([], rest)
  | None =>
      match s with
      | c :: s' =>
          if dot c
          then match find_close s' with
               | Some (g, rest) => Some (c :: g, rest)
               | None => None
               end
          else None
      | [] => None
      end
  end.

(** One [boldRegex.exec]: the text before the leftmost match, group 1 and
    the input after the match. *)
Fixpoint next_bold (s : list ascii)
    : option (list ascii * list ascii * list ascii) :=
  match (match Regex.strip_prefix stars s with
         | Some s' => find_close s'
         | None => None
         end) with
  | Some (g, rest) => Some ([], g, rest)
  | None =>
      match s with
      | c :: s' =>
          match next_bold s' with
          | Some (before, g, rest) => Some (c :: before, g, rest)
          | None => None
          end
      | [] => None
      end
  end.

(** The [while] loop and the push of the remainder after it; [fuel] bounds
    the number of matches. *)
Fixpoint parts_loop (fuel : nat) (s : list ascii) : list part :=
  match fuel with
  | O => []
  | S fuel' =>
      match next_bold s with
      | Some (before, g, rest) =>
          (match before with [] => [] | _ :: _ => [Plain before] end)
          ++ Bold g :: parts_loop fuel' rest
      | None =>
          match s with [] => [] | _ :: _ => [Plain s] end
      end
  end.

Definition parts_of (line : string) : list part :=
  parts_loop (S (String.length line)) (Text.chars line).

Inductive content :=
| Parts (parts : list part)      (* [parts.length > 0 ? parts : line] *)
| Whole (line : string).

Inductive element :=
| Br
| ListItem (c : content)         (* [<div className="ml-4">] for a numbered line *)
| BulletItem (c : content)       (* [<div className="ml-4">] for a bullet line *)
| Div (c : content).

(** [/^[\d]+\./] on a string *)
Definition numbered (s : string) : bool :=
  match Regex.run [Regex.Plus Text.is_digit; Regex.Lit (Text.chars ".")]
          Regex.no_capture (Text.chars s) with
  | Some _ => true
  | None => false
  end.

Definition bullet : string := "â€¢".

(** The callback of [lines.map]. *)
Definition formatLine (line : string) : element :=
  let parts := parts_of line in
  let c := match parts with [] => Whole line | _ :: _ => Parts parts end in
  if (length parts =? 0)%nat && bool_decide (Js.trim line = "") then Br
  else if numbered (Js.trim line) then ListItem c
  else if Js.startsWith (Js.trim line) bullet then BulletItem c
  else Div c.

(** [formatContent] *)
Definition formatContent (text : string) : list element :=
  map formatLine (Lines.split text).

(** The source text a part, a content and an element stand for. *)
Definition part_source (p : part) : list ascii :=
  match p with
  | Plain t => t
  | Bold t => stars ++ t ++ stars
  end.

Definition content_source (c : content) : string :=
  match c with
  | Parts ps => Text.of_chars (concat (map part_source ps))
  | Whole line => line
  end.

Definition element_source (e : element) : string :=
  match e with
  | Br => ""
  | ListItem c | BulletItem c | Div c => content_source c
  end.

Definition bold_texts (ps : list part) : list (list ascii) :=
  omap (fun p => match p with Bold t => Some t | Plain _ => None end) ps.

End ChatMessage.

(* ================================================================== *)
(** * Part II: properties                                              *)
(* ================================================================== *)

(** ** The API client *)

Lemma ok_status r : Api.ok r = true <-> (200 <= Api.status r <= 299)%Z.
Proof. unfold Api.ok. rewrite andb_true_iff, !Z.leb_le. tauto. Qed.

(** What [sendChatMessage] throws for each way a request can fail. *)
Lemma sendChatMessage_rejects w base message sessionId :
  match Api.fetch w (Api.chat_request base message sessionId) with
  | Api.FetchRejects e =>
      snd (Api.sendChatMessage w base message sessionId) = Api.Rejected e
  | Api.FetchResolves r =>
      Api.ok r = false ->
      snd (Api.sendChatMessage w base message sessionId) =
        Api.Rejected (Api.Error ("API Error: " +:+ Text.of_Z (Api.status r)
                                  +:+ " " +:+ Api.statusText r))
  end.
Proof.
  unfold Api.sendChatMessage, Api.await_fetch.
  destruct (Api.fetch w _) as [e|r]; [reflexivity|].
  intros Hok. simpl. rewrite Hok. reflexivity.
Qed.

Lemma checkApiHealth_value w base :
  snd (Api.checkApiHealth w base) =
    Api.Fulfilled (negb (Api.failed (Api.fetch w (Api.stats_request base)))).
Proof.
  unfold Api.checkApiHealth, Api.await_fetch, Api.failed.
  destruct (Api.fetch w _) as [e|r]; simpl; [reflexivity|].
  now rewrite negb_involutive.
Qed.

(** C10: whenever the chat request fails (the network rejects it or the
    backend answers with a non-ok status) [sendChatMessage] rejects with an
    error and returns no [ChatResponse]; [checkApiHealth] never rejects, and
    its value is [true] exactly when the stats request resolved with an ok
    status, [false] on every failure. *)
Theorem api_client_failure_contract w base message sessionId :
  (Api.failed (Api.fetch w (Api.chat_request base message sessionId)) = true ->
     (exists e, snd (Api.sendChatMessage w base message sessionId) = Api.Rejected e)
     /\ forall data, snd (Api.sendChatMessage w base message sessionId)
                     <> Api.Fulfilled data)
  /\ (forall e, snd (Api.checkApiHealth w base) <> Api.Rejected e)
  /\ (snd (Api.checkApiHealth w base) = Api.Fulfilled true <->
        exists r, Api.fetch w (Api.stats_request base) = Api.FetchResolves r
                  /\ Api.ok r = true)
  /\ (Api.failed (Api.fetch w (Api.stats_request base)) = true ->
        snd (Api.checkApiHealth w base) = Api.Fulfilled false).
Proof.
  split; [|split; [|split]].
  - intros Hf.
    pose proof (sendChatMessage_rejects w base message sessionId) as H.
    destruct (Api.fetch w _) as [e|r]; simpl in Hf.
    + rewrite H. split; [eauto | discriminate].
    + apply negb_true_iff in Hf. rewrite (H Hf). split; [eauto | discriminate].
  - intros e. rewrite checkApiHealth_value. discriminate.
  - rewrite checkApiHealth_value. unfold Api.failed.
    destruct (Api.fetch w _) as [e|r]; simpl.
    + split; [discriminate | intros (r & Hr & _); discriminate].
    + rewrite negb_involutive. split.
      * intros [= Hok]. eauto.
      * intros (r' & [= <-] & Hok). now rewrite Hok.
  - intros Hf. rewrite checkApiHealth_value, Hf. reflexivity.
Qed.

Lemma api_client_failure_contract_witness :
  (exists e, snd (Api.sendChatMessage Api.failing_backend "http://localhost:8000"
                    "Hello" (Some "session-1")) = Api.Rejected e)
  /\ snd (Api.checkApiHealth Api.offline "http://localhost:8000") = Api.Fulfilled false.
Proof.
  split.
  - apply (proj1 (api_client_failure_contract Api.failing_backend
                    "http://localhost:8000" "Hello" (Some "session-1"))).
    reflexivity.
  - apply (proj2 (proj2 (proj2 (api_client_failure_contract Api.offline
                                  "http://localhost:8000" "Hello" None)))).
    reflexivity.
Defined.

(** ** A failing text generator, from the model client to the browser *)

Lemma substring_whole (b : string) : String.substring 0 (String.length b) b = b.
Proof. induction b as [|c b IH]; simpl; [reflexivity | now rewrite IH]. Qed.

Lemma substring_app_drop (a b : string) :
  String.substring (String.length a) (String.length b) (a +:+ b) = b.
Proof.
  induction a as [|c a IH]; simpl; [apply substring_whole | exact IH].
Qed.

Lemma ends_with_app (a b : string) : Text.ends_with (a +:+ b) b = true.
Proof.
  unfold Text.ends_with. apply bool_decide_eq_true.
  replace (String.length (a +:+ b) - String.length b) with (String.length a).
  - apply substring_app_drop.
  - assert (H : String.length (a +:+ b) = String.length a + String.length b).
    { clear. induction a as [|c a IH]; simpl; [reflexivity | now rewrite IH]. }
    rewrite H. lia.
Qed.

(** What the component shows when the chat request fails. *)
Lemma handleSendMessage_failed w base t0 t1 st content :
  Api.failed (Api.fetch w (Api.chat_request base content (Some (App.sessionId st)))) = true ->
  snd (App.handleSendMessage w base t0 t1 st content) =
    {| App.messages :=
         App.messages st ++
           [ {| App.id := Text.of_Z t0; App.type := App.user; App.content := content;
                App.timestamp := t0; App.confidence := None; App.source := None;
                App.articleLink := None |} ] ++
           [ {| App.id := Text.of_Z (t1 + 1); App.type := App.system;
                App.content := App.apology; App.timestamp := t1;
                App.confidence := None; App.source := None;
                App.articleLink := None |} ];
       App.pdfRecommendations := App.pdfRecommendations st;
       App.isSidebarOpen := App.isSidebarOpen st;
       App.sessionId := App.sessionId st;
       App.isLoading := false;
       App.apiStatus := App.disconnected |}.
Proof.
  intros Hf.
  assert (He : exists e, snd (Api.sendChatMessage w base content
                                (Some (App.sessionId st))) = Api.Rejected e).
  { pose proof (sendChatMessage_rejects w base content (Some (App.sessionId st))) as H.
    destruct (Api.fetch w _) as [e|r]; simpl in Hf; [eauto|].
    apply negb_true_iff in Hf. rewrite (H Hf). eauto. }
  destruct He as [e He].
  unfold App.handleSendMessage. simpl.
  destruct (Api.sendChatMessage w base content (Some (App.sessionId st))) as [log o].
  simpl in He. subst o. simpl. now rewrite <- app_assoc.
Qed.

Lemma chat_reraises_as_500 llm payload e :
  llm (Backend.message payload) = Py.Raise e ->
  Backend.chat llm payload = Py.Raise (Py.HTTPException 500 (Py.str e)).
Proof. unfold Backend.chat. now intros ->. Qed.

(** A timeout or a refused connection of the model server is one of the
    failures: [LlamaClient.chat] lets the exception of [requests.post]
    through. *)
Lemma LlamaClient_chat_post_raises post user_message e :
  (forall rq, post rq = Backend.PostRaises e) ->
  Backend.LlamaClient_chat post user_message = Py.Raise e.
Proof. intros H. unfold Backend.LlamaClient_chat. now rewrite H. Qed.

(** C8, as the code has it: when the text-generation call raises, the
    [/chat] endpoint re-raises it as [HTTPException(500, detail=str(e))], so
    the HTTP caller receives a 500 carrying the exception text and no reply
    at all; it is the web client that turns the failed request into the
    user-visible system message asking to try again, marks the API as
    disconnected and leaves the loading state. *)
Theorem generation_failure_is_500_then_apology post to_json other parse payload e :
  Backend.LlamaClient_chat post (Backend.message payload) = Py.Raise e ->
  Backend.chat (Backend.LlamaClient_chat post) payload
    = Py.Raise (Py.HTTPException 500 (Py.str e))
  /\ Backend.serve to_json (Backend.chat (Backend.LlamaClient_chat post) payload)
     = {| Api.status := 500; Api.statusText := "Internal Server Error";
          Api.body := to_json "detail" (Py.str e) |}
  /\ forall base t0 t1 st,
       snd (App.handleSendMessage (Backend.deployed post to_json other parse)
              base t0 t1 st
              (Backend.message payload)) =
       {| App.messages :=
            App.messages st ++
              [ {| App.id := Text.of_Z t0; App.type := App.user;
                   App.content := Backend.message payload;
                   App.timestamp := t0; App.confidence := None;
                   App.source := None; App.articleLink := None |} ] ++
              [ {| App.id := Text.of_Z (t1 + 1); App.type := App.system;
                   App.content := App.apology; App.timestamp := t1;
                   App.confidence := None; App.source := None;
                   App.articleLink := None |} ];
          App.pdfRecommendations := App.pdfRecommendations st;
          App.isSidebarOpen := App.isSidebarOpen st;
          App.sessionId := App.sessionId st;
          App.isLoading := false;
          App.apiStatus := App.disconnected |}.
Proof.
  intros Hraise.
  pose proof (chat_reraises_as_500 (Backend.LlamaClient_chat post) payload e Hraise)
    as Hchat.
  split; [exact Hchat|]. split; [now rewrite Hchat|].
  intros base t0 t1 st. apply handleSendMessage_failed.
  unfold Backend.deployed, Api.chat_request. simpl.
  rewrite ends_with_app. simpl.
  destruct payload as [m]. simpl in *. now rewrite Hchat.
Qed.

Lemma generation_failure_is_500_then_apology_witness :
  Backend.chat (Backend.LlamaClient_chat Backend.ollama_timeout)
    {| Backend.message := "What is your return policy?" |}
  = Py.Raise (Py.HTTPException 500 "Read timed out. (read timeout=180)").
Proof.
  apply (proj1 (generation_failure_is_500_then_apology Backend.ollama_timeout
                  Backend.json_object1 Backend.not_found
                  Api.no_json {| Backend.message := "What is your return policy?" |}
                  (Py.Timeout "Read timed out. (read timeout=180)") eq_refl)).
Defined.

(** C8 as stated fails: a timeout of the generator reaches the caller of
    [/chat] as a raw server error, status 500 with the exception text as
    detail, and not as a reply. *)
Lemma generation_timeout_reaches_caller_as_500 :
  let answer := Backend.chat (Backend.LlamaClient_chat Backend.ollama_timeout)
                  {| Backend.message := "What is your return policy?" |} in
  answer = Py.Raise (Py.HTTPException 500 "Read timed out. (read timeout=180)")
  /\ Api.status (Backend.serve Backend.json_object1 answer) = 500%Z
  /\ Api.ok (Backend.serve Backend.json_object1 answer) = false
  /\ Api.body (Backend.serve Backend.json_object1 answer)
     = Backend.json_object1 "detail" "Read timed out. (read timeout=180)".
Proof. repeat split. Qed.

(** ** The session store *)

Section StoreFacts.
Import Store.
Implicit Types (sessions : gmap string Session) (sid : string) (now : Z).

Lemma lookup_foldl_delete (l : list string) sessions sid :
  foldl (fun m k => delete k m) sessions l !! sid =
    if decide (sid ∈ l) then None else sessions !! sid.
Proof.
  revert sessions. induction l as [|k l IH]; intros sessions; simpl.
  - destruct (decide (sid ∈ [])) as [H|H]; [inversion H | reflexivity].
  - rewrite IH. destruct (decide (k = sid)) as [->|Hne].
    + rewrite lookup_delete_eq.
      rewrite (decide_True (P := sid ∈ sid :: l)) by constructor.
      now destruct (decide (sid ∈ l)).
    + rewrite lookup_delete_ne by done.
      destruct (decide (sid ∈ l)) as [Hin|Hin].
      * rewrite (decide_True (P := sid ∈ k :: l)) by now constructor.
        reflexivity.
      * rewrite (decide_False (P := sid ∈ k :: l)); [reflexivity|].
        intros Hin'. apply elem_of_cons in Hin' as [->|Hin']; [now apply Hne | now apply Hin].
Qed.

Lemma elem_of_expired_ids now sessions sid :
  sid ∈ expired_ids now sessions <->
  exists data, sessions !! sid = Some data /\ is_expired now data = true.
Proof.
  unfold expired_ids. rewrite list_elem_of_In, in_map_iff. split.
  - intros ([k data] & <- & Hin). apply filter_In in Hin as [Hin Hexp].
    apply list_elem_of_In, elem_of_map_to_list in Hin. eauto.
  - intros (data & Hlk & Hexp). exists (sid, data). split; [reflexivity|].
    apply filter_In. split; [|exact Hexp].
    now apply list_elem_of_In, elem_of_map_to_list.
Qed.

Lemma is_expired_spec now data :
  is_expired now data = true <-> (now - last_activity data > SESSION_TIMEOUT)%Z.
Proof. unfold is_expired. rewrite Z.ltb_lt. lia. Qed.

Lemma cleanup_lookup now sessions sid :
  cleanup_expired_sessions now sessions !! sid =
    match sessions !! sid with
    | Some data => if is_expired now data then None else Some data
    | None => None
    end.
Proof.
  unfold cleanup_expired_sessions. rewrite lookup_foldl_delete.
  destruct (decide (sid ∈ expired_ids now sessions)) as [Hin|Hin].
  - apply elem_of_expired_ids in Hin as (data & -> & ->). reflexivity.
  - destruct (sessions !! sid) as [data|] eqn:Hlk; [|reflexivity].
    destruct (is_expired now data) eqn:Hexp; [|reflexivity].
    exfalso. apply Hin, elem_of_expired_ids. eauto.
Qed.

Lemma get_or_create_new now sid sessions :
  sessions !! sid = None ->
  get_or_create_session now sid sessions =
    (<[sid := new_session now]> sessions, Py.Return (new_session now)).
Proof.
  intros Hnone. unfold get_or_create_session, lookup_session.
  rewrite Hnone, lookup_insert_eq, lookup_insert_eq, insert_insert_eq.
  reflexivity.
Qed.

Lemma get_or_create_known now sid sessions s :
  sessions !! sid = Some s ->
  get_or_create_session now sid sessions =
    (<[sid := set_last_activity now s]> sessions,
     Py.Return (set_last_activity now s)).
Proof.
  intros Hsome. unfold get_or_create_session, lookup_session.
  rewrite Hsome; simpl. rewrite Hsome; simpl. now rewrite lookup_insert_eq.
Qed.

End StoreFacts.

(** C9: [get_or_create_session] creates a session with the default state
    (empty history, no pending course code, no stored intent or platform)
    the first time an id is used and hands out the stored session, unchanged
    but for its activity stamp, every later time; each call sets
    [last_activity] to the current time and leaves the other sessions alone;
    the sweep at time [now] keeps exactly the sessions that have not been
    idle for longer than [SESSION_TIMEOUT]. *)
Theorem session_store_contract (now : Z) (sid : string)
    (sessions : gmap string Store.Session) :
  (sessions !! sid = None ->
     Store.get_or_create_session now sid sessions =
       (<[sid := Store.new_session now]> sessions,
        Py.Return {| Store.history := [];
                     Store.awaiting_course_code := false;
                     Store.stored_intent := None;
                     Store.stored_platform := None;
                     Store.last_activity := now |}))
  /\ (forall s, sessions !! sid = Some s ->
        Store.get_or_create_session now sid sessions =
          (<[sid := Store.set_last_activity now s]> sessions,
           Py.Return {| Store.history := Store.history s;
                        Store.awaiting_course_code := Store.awaiting_course_code s;
                        Store.stored_intent := Store.stored_intent s;
                        Store.stored_platform := Store.stored_platform s;
                        Store.last_activity := now |}))
  /\ (exists s, snd (Store.get_or_create_session now sid sessions) = Py.Return s
                /\ fst (Store.get_or_create_session now sid sessions) !! sid = Some s
                /\ Store.last_activity s = now)
  /\ (forall other, other <> sid ->
        fst (Store.get_or_create_session now sid sessions) !! other = sessions !! other)
  /\ (forall id data,
        Store.cleanup_expired_sessions now sessions !! id = Some data <->
        sessions !! id = Some data
        /\ (now - Store.last_activity data <= Store.SESSION_TIMEOUT)%Z).
Proof.
  split; [|split; [|split; [|split]]].
  - apply get_or_create_new.
  - intros s Hs. now rewrite (get_or_create_known now sid sessions s Hs).
  - destruct (sessions !! sid) as [s|] eqn:Hlk.
    + rewrite (get_or_create_known now sid sessions s Hlk). simpl.
      eexists. split; [reflexivity|]. now rewrite lookup_insert_eq.
    + rewrite (get_or_create_new now sid sessions Hlk). simpl.
      eexists. split; [reflexivity|]. now rewrite lookup_insert_eq.
  - intros other Hne. destruct (sessions !! sid) as [s|] eqn:Hlk.
    + rewrite (get_or_create_known now sid sessions s Hlk). simpl.
      now rewrite lookup_insert_ne.
    + rewrite (get_or_create_new now sid sessions Hlk). simpl.
      now rewrite lookup_insert_ne.
  - intros id data. rewrite cleanup_lookup.
    destruct (sessions !! id) as [d|]; [|split; [discriminate | intros [? _]; discriminate]].
    destruct (Store.is_expired now d) eqn:Hexp.
    + apply is_expired_spec in Hexp. split; [discriminate|].
      intros [[= ->] Hle]. lia.
    + split; intros H.
      * injection H as ->. split; [reflexivity|].
        destruct (Z.le_gt_cases (now - Store.last_activity data) Store.SESSION_TIMEOUT)
          as [Hle|Hgt]; [exact Hle|].
        exfalso. assert (Store.is_expired now data = true) as Habs
          by (apply is_expired_spec; lia).
        congruence.
      * destruct H as [[= ->] _]. reflexivity.
Qed.

Lemma session_store_contract_witness :
  Store.get_or_create_session 10 "s1" ∅ =
    (<["s1" := Store.new_session 10]> ∅,
     Py.Return {| Store.history := [];
                  Store.awaiting_course_code := false;
                  Store.stored_intent := None;
                  Store.stored_platform := None;
                  Store.last_activity := 10 |})
  /\ Store.get_or_create_session 20 "s1" {["s1" := Conversation.sample_waiting]} =
       (<["s1" := Store.set_last_activity 20 Conversation.sample_waiting]>
          {["s1" := Conversation.sample_waiting]},
        Py.Return {| Store.history := Conversation.sample_history;
                     Store.awaiting_course_code := true;
                     Store.stored_intent := Some "IA_ACCESS_ISSUE";
                     Store.stored_platform := Some "CENGAGE";
                     Store.last_activity := 20 |})
  /\ fst (Store.get_or_create_session 20 "s2" {["s1" := Conversation.sample_waiting]})
        !! "s1" = ({["s1" := Conversation.sample_waiting]} : gmap string Store.Session) !! "s1".
Proof.
  split; [|split].
  - apply (proj1 (session_store_contract 10 "s1" ∅)). reflexivity.
  - apply (proj1 (proj2 (session_store_contract 20 "s1"
                           {["s1" := Conversation.sample_waiting]}))).
    reflexivity.
  - apply (proj1 (proj2 (proj2 (proj2 (session_store_contract 20 "s2"
                           {["s1" := Conversation.sample_waiting]}))))).
    discriminate.
Defined.

(** ** Conversation state handling *)

(** C2, at the input on which the code departs from it: the bot waits for
    a course code and the user answers [BIO101].  The branch is chosen on the
    state as it was (the pending flag is consumed and the code extracted) and
    the message is appended once, after the branch; but it is appended
    although it was consumed as a slot value, so the history ends with the
    bare course code. *)
Theorem slot_fragment_lands_in_history
    (detect : string -> Store.Session -> Store.Session * Conversation.Slots) :
  let '(session', slots) :=
    Conversation.handle_user_message Conversation.extract_course_code_spec
      detect "BIO101" Conversation.sample_waiting in
  Conversation.course_code slots = Some "BIO101"
  /\ Store.awaiting_course_code session' = false
  /\ Store.history session'
     = Conversation.sample_history
         ++ [ {| Store.role := "user"; Store.content := "BIO101" |} ].
Proof. repeat split. Qed.

(** The append does not depend on the branch taken while a code is
    awaited: whatever the message, it ends up in the history. *)
Lemma awaited_reply_always_appended extract detect message session :
  Store.awaiting_course_code session = true ->
  Store.history
    (fst (Conversation.handle_user_message extract detect message session))
  = Store.history session ++ [ {| Store.role := "user"; Store.content := message |} ].
Proof.
  intros Hwait. unfold Conversation.handle_user_message, Conversation.state_handling.
  now rewrite Hwait.
Qed.

(** ** The contextual query *)

Section ContextualQuery.
Import Store Conversation.

Lemma first_assistant_skip (l1 l2 : list Turn) :
  Forall not_assistant l1 -> first_assistant (l1 ++ l2) = first_assistant l2.
Proof.
  induction 1 as [|t l1 Ht _ IH]; simpl; [reflexivity|].
  now rewrite bool_decide_eq_false_2.
Qed.

Lemma first_assistant_none (l : list Turn) :
  Forall not_assistant l -> first_assistant l = None.
Proof.
  intros H. rewrite <- (app_nil_r l). now rewrite first_assistant_skip.
Qed.

(** The most recent assistant turn is what the loop over the reversed
    history finds. *)
Lemma first_assistant_rev (before after : list Turn) (r : string) :
  Forall not_assistant after ->
  first_assistant (rev (before ++ {| role := "assistant"; content := r |} :: after))
  = Some r.
Proof.
  intros Hafter. rewrite rev_app_distr. simpl. rewrite <- app_assoc.
  rewrite first_assistant_skip.
  - reflexivity.
  - rewrite Forall_forall in Hafter |- *. intros t Ht.
    apply Hafter. apply list_elem_of_In, in_rev. now apply list_elem_of_In.
Qed.

Lemma pronoun_test (message : string) :
  existsb (fun pronoun => bool_decide (pronoun ∈ Text.split (Text.lower message)))
    pronouns = true <-> has_pronoun message.
Proof.
  rewrite existsb_exists. unfold has_pronoun. split.
  - intros (p & Hin & Hdec). exists p. split; [now apply list_elem_of_In|].
    now apply bool_decide_eq_true in Hdec.
  - intros (p & Hin & Hw). exists p. split; [now apply list_elem_of_In|].
    now apply bool_decide_eq_true.
Qed.

End ContextualQuery.

(** C7, as the code has it: when the history has at least two turns, its
    most recent assistant turn is not empty and one of the lower-cased,
    blank-separated words of the message is one of it, that, this, there,
    where, the query is the first 200 characters of that assistant turn, a
    blank and the message, whatever the length of the message; in every other
    case the query is the message itself.  The function only reads the
    history. *)
Theorem contextual_query_rule (message : string) (history : list Store.Turn) :
  (forall before r after,
     history = before ++ {| Store.role := "assistant"; Store.content := r |} :: after ->
     Forall Conversation.not_assistant after ->
     2 <= length history ->
     r <> "" ->
     Conversation.has_pronoun message ->
     Conversation.build_contextual_query message history
       = Text.prefix_slice 200 r +:+ " " +:+ message)
  /\ (length history < 2 ->
        Conversation.build_contextual_query message history = message)
  /\ (Forall Conversation.not_assistant history ->
        Conversation.build_contextual_query message history = message)
  /\ (forall before after,
        history = before ++ {| Store.role := "assistant"; Store.content := "" |} :: after ->
        Forall Conversation.not_assistant after ->
        Conversation.build_contextual_query message history = message)
  /\ (~ Conversation.has_pronoun message ->
        Conversation.build_contextual_query message history = message).
Proof.
  unfold Conversation.build_contextual_query.
  split; [|split; [|split; [|split]]].
  - intros before r after -> Hafter Hlen Hr Hp.
    destruct (_ =? 0)%nat eqn:E0; [apply Nat.eqb_eq in E0; lia|].
    destruct (_ <? 2)%nat eqn:E2; [apply Nat.ltb_lt in E2; lia|]. cbn [orb].
    rewrite first_assistant_rev by exact Hafter.
    rewrite bool_decide_eq_false_2 by exact Hr.
    apply pronoun_test in Hp. now rewrite Hp.
  - intros Hlen. destruct (_ =? 0)%nat; [reflexivity|].
    destruct (_ <? 2)%nat eqn:E2; [reflexivity|]. apply Nat.ltb_ge in E2. lia.
  - intros Hnone. destruct (_ || _); [reflexivity|].
    rewrite first_assistant_none; [reflexivity|].
    rewrite Forall_forall in Hnone |- *. intros t Ht.
    apply Hnone. apply list_elem_of_In, in_rev. now apply list_elem_of_In.
  - intros before after -> Hafter. destruct (_ || _); [reflexivity|].
    now rewrite first_assistant_rev by exact Hafter.
  - intros Hno. destruct (_ || _); [reflexivity|].
    destruct (Conversation.first_assistant _) as [r|]; [|reflexivity].
    destruct (bool_decide _); [reflexivity|].
    destruct (existsb _ _) eqn:E; [|reflexivity].
    apply pronoun_test in E. contradiction.
Qed.

Lemma contextual_query_rule_witness :
  Conversation.build_contextual_query "where can I find it" Conversation.sample_history
  = "Open McGraw Hill Connect from Blackboard. where can I find it"
  /\ Conversation.build_contextual_query "where can I find it"
       [ {| Store.role := "assistant"; Store.content := "Open Connect." |} ]
     = "where can I find it"
  /\ Conversation.build_contextual_query "it"
       [ {| Store.role := "user"; Store.content := "a" |};
         {| Store.role := "user"; Store.content := "b" |} ]
     = "it"
  /\ Conversation.build_contextual_query "it"
       [ {| Store.role := "assistant"; Store.content := "" |};
         {| Store.role := "user"; Store.content := "b" |} ]
     = "it"
  /\ Conversation.build_contextual_query "thanks" Conversation.sample_history
     = "thanks".
Proof.
  split; [|split; [|split; [|split]]].
  - apply (proj1 (contextual_query_rule "where can I find it"
                    Conversation.sample_history)
             [ {| Store.role := "user"; Store.content := "How do I access McGraw Hill?" |} ]
             "Open McGraw Hill Connect from Blackboard." []).
    + reflexivity.
    + constructor.
    + simpl. lia.
    + discriminate.
    + exists "it". split; vm_compute; repeat constructor.
  - apply (proj1 (proj2 (contextual_query_rule "where can I find it" _))).
    simpl. lia.
  - apply (proj1 (proj2 (proj2 (contextual_query_rule "it" _)))).
    repeat constructor; discriminate.
  - apply (proj1 (proj2 (proj2 (proj2 (contextual_query_rule "it" _))))
             [] [ {| Store.role := "user"; Store.content := "b" |} ]).
    + reflexivity.
    + repeat constructor; discriminate.
  - apply (proj2 (proj2 (proj2 (proj2 (contextual_query_rule "thanks" _))))).
    intros H. apply pronoun_test in H. vm_compute in H. discriminate.
Defined.

(** C7 as stated fails in four ways: the excerpt is cut from the head of
    the assistant turn and not from its tail; a message of more than 200
    characters with a pronoun is reformulated like a short one; a short
    message whose pronoun carries a question mark is passed unchanged; and so
    is a short message with a pronoun when the history has a single turn. *)
Lemma contextual_query_departs_from_claim :
  (Conversation.build_contextual_query "where can I find it" Conversation.long_history
   = Text.prefix_slice 200 Conversation.long_reply +:+ " where can I find it"
   /\ Text.ends_with Conversation.long_reply
        (Text.prefix_slice 200 Conversation.long_reply) = false)
  /\ (200 < Text.len Conversation.long_message
      /\ Conversation.build_contextual_query Conversation.long_message
           Conversation.sample_history
         = "Open McGraw Hill Connect from Blackboard. " +:+ Conversation.long_message)
  /\ Conversation.build_contextual_query "what about that?" Conversation.sample_history
     = "what about that?"
  /\ Conversation.build_contextual_query "where can I find it"
       [ {| Store.role := "assistant";
            Store.content := "Open McGraw Hill Connect from Blackboard." |} ]
     = "where can I find it".
Proof.
  split; [split; vm_compute; reflexivity|].
  split; [split; [vm_compute; lia | vm_compute; reflexivity]|].
  split; vm_compute; reflexivity.
Qed.

(** ** Patterns *)

Section RegexFacts.
Import Regex.
Context {T : Type} `{EqDecision T}.

Lemma strip_prefix_app (text rest : list T) :
  strip_prefix text (text ++ rest) = Some rest.
Proof.
  induction text as [|c text IH]; simpl; [now destruct rest|].
  now rewrite bool_decide_eq_true_2.
Qed.

Lemma strip_prefix_Some (text s r : list T) :
  strip_prefix text s = Some r -> s = text ++ r.
Proof.
  revert s. induction text as [|c text IH]; intros s; simpl.
  - now intros [= ->].
  - destruct s as [|x s]; [discriminate|].
    destruct (bool_decide (c = x)) eqn:E; [|discriminate].
    apply bool_decide_eq_true in E. subst x. intros H. now rewrite (IH _ H).
Qed.




(** What a match is made of. *)
Lemma search_inv (p : pattern T) (s : list T) (m : capture T) :
  search p s = Some m ->
  exists pre s', s = pre ++ s' /\ run p no_capture s' = Some m.
Proof.
  induction s as [|x s IH]; simpl.
  - destruct (run p no_capture []) eqn:E; [|discriminate].
    intros [= <-]. now exists [], [].
  - destruct (run p no_capture (x :: s)) eqn:E.
    + intros [= <-]. now exists [], (x :: s).
    + intros H. destruct (IH H) as (pre & s' & -> & Hrun).
      now exists (x :: pre), s'.
Qed.

Lemma star_inv (cls : T -> bool) (k : list T -> option (capture T))
    (s : list T) (m : capture T) :
  star cls k s = Some m ->
  exists ws rest, s = ws ++ rest /\ Forall (fun c => cls c = true) ws
                  /\ k rest = Some m.
Proof.
  induction s as [|x s IH]; simpl.
  - intros H. now exists [], [].
  - destruct (cls x) eqn:E.
    + destruct (star cls k s) as [r|] eqn:F.
      * intros [= <-]. destruct (IH eq_refl) as (ws & rest & -> & Hws & Hk).
        exists (x :: ws), rest. repeat split; [now constructor | exact Hk].
      * intros H. now exists [], (x :: s).
    + intros H. now exists [], (x :: s).
Qed.

Lemma run_lit (text : list T) (p : pattern T) g s :
  run (Lit text :: p) g s =
  match strip_prefix text s with Some s' => run p g s' | None => None end.
Proof. reflexivity. Qed.

Lemma run_star (cls : T -> bool) (p : pattern T) g s :
  run (Star cls :: p) g s = star cls (run p g) s.
Proof. reflexivity. Qed.

Lemma run_plus (cls : T -> bool) (p : pattern T) g s :
  run (Plus cls :: p) g s =
  match s with
  | x :: s' => if cls x then star cls (run p g) s' else None
  | [] => None
  end.
Proof. reflexivity. Qed.

Lemma run_open (p : pattern T) g s :
  run (OpenGroup :: p) g s = run p {| opened := Some s; group1 := group1 g |} s.
Proof. reflexivity. Qed.

Lemma run_close (p : pattern T) g s :
  run (CloseGroup :: p) g s = run p (close_group g s) s.
Proof. reflexivity. Qed.

Lemma run_nil (g : capture T) s : run [] g s = Some g.
Proof. destruct s; reflexivity. Qed.

Lemma opt_inv (cls : T -> bool) (p : pattern T) (g : capture T) (s : list T)
    (m : capture T) :
  run (Opt cls :: p) g s = Some m ->
  run p g s = Some m
  \/ exists x s', s = x :: s' /\ cls x = true /\ run p g s' = Some m.
Proof.
  simpl. destruct s as [|x s]; [now left|].
  destruct (cls x) eqn:E; [|now left].
  destruct (run p g s) as [r|] eqn:F.
  - intros [= <-]. right. now exists x, s.
  - now left.
Qed.

Lemma find_unfold (text s : list T) :
  find text s =
  match strip_prefix text s with
  | Some _ => Some 0
  | None => match s with
            | [] => None
            | _ :: s' => option_map S (find text s')
            end
  end.
Proof. destruct s; reflexivity. Qed.

End RegexFacts.

(** ** Characters of a string *)

Section Characters.
Import Text.

Lemma chars_app (a b : string) : chars (a +:+ b) = chars a ++ chars b.
Proof. induction a as [|c a IH]; simpl; [reflexivity | now rewrite <- IH]. Qed.

Lemma chars_length (a : string) : length (chars a) = String.length a.
Proof. induction a as [|c a IH]; simpl; [reflexivity | now rewrite IH]. Qed.

Lemma chars_of_chars (l : list ascii) : chars (of_chars l) = l.
Proof. apply list_ascii_of_string_of_list_ascii. Qed.

Lemma of_chars_chars (s : string) : of_chars (chars s) = s.
Proof. apply string_of_list_ascii_of_string. Qed.

Lemma of_chars_nil (l : list ascii) : of_chars l = "" <-> l = [].
Proof. destruct l; simpl; split; intros; (reflexivity || discriminate). Qed.

Lemma absorb_concat (gs : list uchar) :
  fst (absorb gs) ++ concat (snd (absorb gs)) = concat gs.
Proof.
  induction gs as [|g gs IH]; [reflexivity|].
  destruct g as [|k [|k' g]]; try reflexivity.
  simpl. destruct (is_cont k); [|reflexivity].
  destruct (absorb gs) as [ks rest]. simpl in *. now rewrite IH.
Qed.

(** The characters of a string spell it. *)
Lemma concat_group (l : list ascii) : concat (group l) = l.
Proof.
  induction l as [|c l IH]; [reflexivity|]. simpl.
  destruct (is_lead c).
  - pose proof (absorb_concat (group l)) as H.
    destruct (absorb (group l)) as [ks rest]. simpl in *.
    now rewrite H, IH.
  - simpl. now rewrite IH.
Qed.

Lemma of_uchars_uchars (s : string) : of_uchars (uchars s) = s.
Proof. unfold of_uchars, uchars. rewrite concat_group. apply of_chars_chars. Qed.

Lemma absorb_nonempty (gs : list uchar) :
  Forall (fun g => g <> []) gs -> Forall (fun g => g <> []) (snd (absorb gs)).
Proof.
  induction gs as [|g gs IH]; intros H; [constructor|].
  inversion H as [|? ? Hg Hgs]; subst.
  destruct g as [|k [|k' g]]; try exact H.
  simpl. destruct (is_cont k); [|exact H].
  specialize (IH Hgs). now destruct (absorb gs).
Qed.

(** No character is empty. *)
Lemma group_nonempty (l : list ascii) : Forall (fun g => g <> []) (group l).
Proof.
  induction l as [|c l IH]; [constructor|]. simpl.
  destruct (is_lead c).
  - pose proof (absorb_nonempty _ IH) as H.
    destruct (absorb (group l)) as [ks rest]. simpl in H.
    now constructor.
  - now constructor.
Qed.

Lemma concat_nil_nonempty (gs : list uchar) :
  Forall (fun g => g <> []) gs -> concat gs = [] -> gs = [].
Proof.
  intros H E. destruct gs as [|g gs]; [reflexivity|].
  inversion H; subst. destruct g; [contradiction | discriminate].
Qed.

Lemma absorb_spec (gs : list uchar) :
  gs = map (fun k => [k]) (fst (absorb gs)) ++ snd (absorb gs)
  /\ Forall (fun k => is_cont k = true) (fst (absorb gs))
  /\ match snd (absorb gs) with [] => True | g :: _ => lone_cont g = false end.
Proof.
  induction gs as [|g gs IH]; [repeat split; constructor|].
  destruct g as [|k [|k' g]]; try (repeat split; constructor).
  simpl. destruct (is_cont k) eqn:E.
  - destruct (absorb gs) as [ks rest]. simpl in *.
    destruct IH as (Hgs & Hks & Hrest).
    split; [now rewrite Hgs at 1|]. split; [now constructor | exact Hrest].
  - simpl. repeat split; [constructor | exact E].
Qed.

Lemma absorb_app (ks : list ascii) (rest : list uchar) :
  Forall (fun k => is_cont k = true) ks ->
  match rest with [] => True | g :: _ => lone_cont g = false end ->
  absorb (map (fun k => [k]) ks ++ rest) = (ks, rest).
Proof.
  intros Hks Hrest. induction Hks as [|k ks Hk _ IH]; simpl.
  - destruct rest as [|g rest]; [reflexivity|].
    destruct g as [|k [|k' g]]; try reflexivity.
    simpl in *. now rewrite Hrest.
  - now rewrite Hk, IH.
Qed.

(** The first [n] characters of a string are the characters of the string
    they spell. *)
Lemma group_take (l : list ascii) (n : nat) :
  group (concat (take n (group l))) = take n (group l).
Proof.
  revert n. induction l as [|c l IH]; intros n; [now destruct n|].
  simpl. destruct (is_lead c) eqn:E.
  - pose proof (absorb_spec (group l)) as (Hgs & Hks & Hrest).
    destruct (absorb (group l)) as [ks rest]. simpl in *.
    destruct n as [|n]; [reflexivity|]. simpl. rewrite E.
    specialize (IH (length ks + n)).
    rewrite Hgs in IH.
    rewrite take_app_add' in IH by now rewrite length_map.
    rewrite concat_app in IH.
    assert (Hc : concat (map (fun k => [k]) ks) = ks).
    { clear. induction ks as [|k ks IHk]; simpl; [reflexivity | now rewrite IHk]. }
    rewrite Hc in IH. rewrite IH.
    rewrite absorb_app; [reflexivity | exact Hks |].
    destruct rest as [|g rest]; [now destruct n|]. now destruct n.
  - destruct n as [|n]; [reflexivity|]. simpl. now rewrite E, IH.
Qed.

Lemma absorb_snoc (gs : list uchar) (c : ascii) :
  is_cont c = false ->
  absorb (gs ++ [[c]]) = (fst (absorb gs), snd (absorb gs) ++ [[c]]).
Proof.
  intros Hc. induction gs as [|g gs IH]; simpl; [now rewrite Hc|].
  destruct g as [|k [|k' g]]; try reflexivity.
  destruct (is_cont k); [|reflexivity].
  rewrite IH. now destruct (absorb gs).
Qed.

(** A byte below 0x80 put after a string is one more character. *)
Lemma group_snoc (l : list ascii) (c : ascii) :
  is_lead c = false -> is_cont c = false ->
  group (l ++ [c]) = group l ++ [[c]].
Proof.
  intros Hl Hc. induction l as [|x l IH]; simpl; [now rewrite Hl|].
  rewrite IH. destruct (is_lead x); [|reflexivity].
  rewrite absorb_snoc by exact Hc. now destruct (absorb (group l)).
Qed.

(** [s[:n]] has at most [n] characters. *)
Lemma len_prefix_slice (n : nat) (s : string) : len (prefix_slice n s) <= n.
Proof.
  unfold len, prefix_slice, of_uchars, uchars.
  rewrite chars_of_chars, group_take, length_take. lia.
Qed.

Lemma len_append_blank (s : string) : len (s +:+ " ") = S (len s).
Proof.
  unfold len, uchars. rewrite chars_app.
  change (chars " ") with [ascii_of_nat 32].
  rewrite group_snoc by reflexivity. rewrite length_app. simpl. lia.
Qed.

End Characters.

(** ** The course code of a slot reply *)

Section CourseCode.
Import Regex Conversation.

(** What the course-code pattern extracts: the leftmost stretch of the
    message made of capital letters directly followed by digits. *)
Lemma course_code_shape (message code : string) :
  extract_course_code_spec message = Some code ->
  exists pre letters digits post,
    Text.chars message = pre ++ letters ++ digits ++ post
    /\ Text.chars code = letters ++ digits
    /\ letters <> [] /\ Forall (fun c => Text.is_upper c = true) letters
    /\ digits <> [] /\ Forall (fun c => Text.is_digit c = true) digits.
Proof.
  unfold extract_course_code_spec.
  destruct (search course_code_pattern (Text.chars message)) as [m|] eqn:Hs;
    [|discriminate].
  apply search_inv in Hs as (pre & s0 & Hmsg & H).
  unfold course_code_pattern in H. rewrite run_open, run_plus in H.
  destruct s0 as [|x s1]; [discriminate|].
  destruct (Text.is_upper x) eqn:Ex; [|discriminate].
  apply star_inv in H as (us & rest & -> & Hus & H).
  rewrite run_plus in H. destruct rest as [|d r2]; [discriminate|].
  destruct (Text.is_digit d) eqn:Ed; [|discriminate].
  apply star_inv in H as (ds & post & -> & Hds & H).
  rewrite run_close, run_nil in H. injection H as <-.
  unfold close_group. cbn [opened group1 option_map]. intros [= <-].
  exists pre, (x :: us), (d :: ds), post.
  split; [rewrite Hmsg; reflexivity|].
  split.
  - rewrite chars_of_chars.
    assert (Hs0 : x :: us ++ d :: ds ++ post = ((x :: us) ++ d :: ds) ++ post)
      by (cbn [app]; now rewrite <- app_assoc).
    rewrite Hs0.
    match goal with
    | |- take ?n _ = _ =>
        replace n with (length ((x :: us) ++ d :: ds))
          by (repeat (rewrite length_app; simpl); lia)
    end.
    apply take_app_length.
  - split; [discriminate|]. split; [now constructor|].
    split; [discriminate | now constructor].
Qed.

End CourseCode.

(** C1: while a course code is awaited and the message supplies one, the
    slot is the stretch of the message that the course-code pattern matches,
    capital letters directly followed by digits, and not the message, unless
    the message is nothing but a code; the stashed intent and platform are
    handed on with it, the pending flag is cleared and the stash emptied, and
    the request goes on to retrieval with these slots and no slot pending.
    The sentence around the code is dropped: of [it's BIO101 for biology]
    only [BIO101] is kept. *)
Theorem slot_reply_is_extracted
    (R : Type)
    (detect : string -> Store.Session -> Store.Session * Conversation.Slots)
    (retrieval : string -> Store.Session -> Conversation.Slots -> R)
    (message code : string) (session : Store.Session) :
  Store.awaiting_course_code session = true ->
  Conversation.extract_course_code_spec message = Some code ->
  (exists pre letters digits post,
     Text.chars message = pre ++ letters ++ digits ++ post
     /\ Text.chars code = letters ++ digits
     /\ letters <> [] /\ Forall (fun c => Text.is_upper c = true) letters
     /\ digits <> [] /\ Forall (fun c => Text.is_digit c = true) digits)
  /\ ((exists c, c ∈ Text.chars message
                 /\ Text.is_upper c = false /\ Text.is_digit c = false) ->
      code <> message)
  /\ (let '(session', result) :=
        Conversation.handle_message R detect retrieval message session in
      result = retrieval message session'
                 {| Conversation.course_code := Some code;
                    Conversation.intent := Store.stored_intent session;
                    Conversation.platform := Store.stored_platform session |}
      /\ Store.awaiting_course_code session' = false
      /\ Store.stored_intent session' = None
      /\ Store.stored_platform session' = None)
  /\ Conversation.extract_course_code_spec "it's BIO101 for biology" = Some "BIO101".
Proof.
  intros Hwait Hcode.
  pose proof (course_code_shape message code Hcode) as Hshape.
  split; [exact Hshape|]. split; [|split; [|reflexivity]].
  - intros (c & Hc & Hu & Hd) ->.
    destruct Hshape as (pre & letters & digits & post & Hmsg & Hcd & _ & Hl & _ & Hds).
    rewrite Hcd in Hc.
    apply elem_of_app in Hc as [Hc|Hc].
    + rewrite Forall_forall in Hl. specialize (Hl c Hc). congruence.
    + rewrite Forall_forall in Hds. specialize (Hds c Hc). congruence.
  - unfold Conversation.handle_message, Conversation.handle_user_message,
      Conversation.state_handling.
    rewrite Hwait, Hcode. simpl. repeat split.
Qed.

Lemma slot_reply_is_extracted_witness :
  let '(session', result) :=
    Conversation.handle_message Conversation.Slots Conversation.no_detection
      (fun _ _ slots => slots) "it's BIO101 for biology" Conversation.sample_waiting in
  result = {| Conversation.course_code := Some "BIO101";
              Conversation.intent := Some "IA_ACCESS_ISSUE";
              Conversation.platform := Some "CENGAGE" |}
  /\ Store.awaiting_course_code session' = false
  /\ Store.stored_intent session' = None
  /\ Store.stored_platform session' = None.
Proof.
  exact (proj1 (proj2 (proj2 (slot_reply_is_extracted Conversation.Slots
           Conversation.no_detection (fun _ _ slots => slots)
           "it's BIO101 for biology" "BIO101"
           Conversation.sample_waiting eq_refl eq_refl)))).
Defined.

(** ** The article link of a chunk *)

Section ArticleLink.
Import Regex Retriever.




End ArticleLink.




(** ** The retrieval router *)

Section Ranking.
Import Retriever.

Lemma elem_of_insert_desc (e x : Q * Z) (l : list (Q * Z)) :
  x ∈ insert_desc e l <-> x = e \/ x ∈ l.
Proof.
  induction l as [|h t IH]; simpl.
  - rewrite list_elem_of_singleton. split; [auto | intros [?|H]; [done | inversion H]].
  - destruct (Qle_bool (fst h) (fst e)).
    + rewrite elem_of_cons. tauto.
    + rewrite !elem_of_cons, IH. tauto.
Qed.

Lemma elem_of_sorted (l : list (Q * Z)) (x : Q * Z) :
  x ∈ foldr insert_desc [] l <-> x ∈ l.
Proof.
  induction l as [|e l IH]; simpl; [reflexivity|].
  rewrite elem_of_insert_desc, elem_of_cons, IH. tauto.
Qed.

Lemma insert_desc_head_is_max (e : Q * Z) (l : list (Q * Z)) :
  head_is_max l -> head_is_max (insert_desc e l).
Proof.
  destruct l as [|h t]; simpl.
  - intros _ x Hx. inversion Hx.
  - intros Hmax. destruct (Qle_bool (fst h) (fst e)) eqn:E; simpl.
    + apply Qle_bool_iff in E. intros x Hx.
      apply elem_of_cons in Hx as [->|Hx]; [exact E|].
      apply Qle_trans with (fst h); [now apply Hmax | exact E].
    + intros x Hx. apply elem_of_insert_desc in Hx as [->|Hx]; [|now apply Hmax].
      apply Qlt_le_weak, Qnot_le_lt. intros Hle.
      apply Qle_bool_iff in Hle. congruence.
Qed.

Lemma sorted_head_is_max (l : list (Q * Z)) : head_is_max (foldr insert_desc [] l).
Proof.
  induction l as [|e l IH]; simpl; [exact I|]. now apply insert_desc_head_is_max.
Qed.

(** The ranking of a non-empty index starts with a stored vector whose
    inner product with the query is the largest of the index. *)
Lemma ranked_head (index : IndexFlatIP) (q : vec) :
  vectors index <> [] ->
  exists n v rest,
    ranked index q = (dot q v, Z.of_nat n) :: rest
    /\ vectors index !! n = Some v
    /\ forall j u, vectors index !! j = Some u -> (dot q u <= dot q v)%Q.
Proof.
  intros Hne. unfold ranked.
  destruct (vectors index) as [|v0 vs]; [contradiction|]. clear Hne.
  set (scored := imap (fun i v => (dot q v, Z.of_nat i)) (v0 :: vs)).
  assert (Hin : forall x, x ∈ foldr insert_desc [] scored <-> x ∈ scored)
    by (intros x; apply elem_of_sorted).
  pose proof (sorted_head_is_max scored) as Hmax.
  destruct (foldr insert_desc [] scored) as [|h rest] eqn:E.
  - exfalso.
    assert (H0 : (dot q v0, Z.of_nat 0) ∈ scored).
    { subst scored. apply elem_of_lookup_imap. now exists 0, v0. }
    apply Hin in H0. inversion H0.
  - assert (Hh : h ∈ scored) by (apply Hin; constructor).
    subst scored. apply elem_of_lookup_imap in Hh as (n & v & -> & Hv).
    exists n, v, rest. split; [reflexivity|]. split; [exact Hv|].
    intros j u Hu.
    assert (Hj : (dot q u, Z.of_nat j) ∈ (dot q v, Z.of_nat n) :: rest).
    { apply Hin, elem_of_lookup_imap. eauto. }
    apply elem_of_cons in Hj as [Hj|Hj].
    + injection Hj as -> _. apply Qle_refl.
    + apply (Hmax _ Hj).
Qed.

End Ranking.

Section RetrieveFacts.
Import Retriever.
Variable encode : bool -> string -> vec.
Variable faiss : IndexFlatIP -> vec -> Z -> list Q * list Z.
Variable select_collection : string -> string.
Variable instructions_result :
  string -> list string -> list (list Q) -> list (list Z) -> Py.result RetrievalResult.
Variable self : FAQRetriever.

Lemma getitem_nat {A} (xs : list A) (n : nat) (x : A) :
  xs !! n = Some x -> Py.getitem xs (Z.of_nat n) = Py.Return x.
Proof.
  intros Hx. unfold Py.getitem.
  destruct (Z.of_nat n <? 0)%Z eqn:E; [apply Z.ltb_lt in E; lia|].
  now rewrite E, Nat2Z.id, Hx.
Qed.

Lemma exec_lift {A} (r : Py.result A) : exec encode faiss (lift r) = ([], r).
Proof. now destruct r. Qed.

(** A run of two computations in sequence: the calls of the first, then,
    unless it raised, those of the second. *)
Lemma exec_bind {A B} (m : prog A) (f : A -> prog B) :
  exec encode faiss (bind m f) =
  match exec encode faiss m with
  | (t, Py.Return a) => let '(t', r) := exec encode faiss (f a) in (t ++ t', r)
  | (t, Py.Raise e) => (t, Py.Raise e)
  end.
Proof.
  induction m as [a|e|texts n rest IH|embeddings rest IH|name index queries k rest IH];
    simpl.
  - now destruct (exec encode faiss (f a)).
  - reflexivity.
  - rewrite IH. destruct (exec encode faiss (rest _)) as [t [a|e]]; [|reflexivity].
    now destruct (exec encode faiss (f a)).
  - rewrite IH. destruct (exec encode faiss (rest _)) as [t [a|e]]; [|reflexivity].
    now destruct (exec encode faiss (f a)).
  - rewrite IH. destruct (exec encode faiss (rest _)) as [t [a|e]]; [|reflexivity].
    now destruct (exec encode faiss (f a)).
Qed.

(** One [retrieve], whatever the model and the vector library answer: the
    model is called on the query, the selected index is searched with what
    the model returned, and the branch builds its result from the rows of
    that search. *)
Lemma retrieve_run query k collection platform :
  exec encode faiss
    (retrieve select_collection instructions_result self query k collection platform)
  = let sel := searched self (selected select_collection query collection) platform in
    let row := faiss sel.1.2 (encode true query) k in
    ([ EvEncode [query] true; EvSearch sel.1.1 sel.1.2 [encode true query] k ],
     if bool_decide (selected select_collection query collection = "instructions")
     then instructions_result "INSTR" sel.2 [row.1] [row.2]
     else faq_result self [row.1] [row.2]).
Proof.
  unfold retrieve, searched.
  destruct (bool_decide (selected select_collection query collection = "instructions")).
  - destruct (select_index self platform) as [[name index] chunks].
    simpl. now rewrite exec_lift.
  - simpl. now rewrite exec_lift.
Qed.

(** The index a request searches is one of those the retriever holds since
    it was created. *)
Lemma searched_is_loaded (selected_collection : string) (platform : option string) :
  let index := (searched self selected_collection platform).1.2 in
  index = faq_index self
  \/ index = instructions_index self
  \/ instructions_index_cengage self = Some index
  \/ instructions_index_mcgraw self = Some index.
Proof.
  unfold searched, select_index.
  destruct (bool_decide (selected_collection = "instructions")); [|simpl; auto].
  destruct (bool_decide (platform = Some "CENGAGE")).
  - destruct (instructions_index_cengage self) eqn:Ec; [simpl; auto|].
    destruct (bool_decide (platform = Some "MCGRAW_HILL")); [|simpl; auto].
    destruct (instructions_index_mcgraw self) eqn:Em; simpl; auto.
  - destruct (bool_decide (platform = Some "MCGRAW_HILL")); [|simpl; auto].
    destruct (instructions_index_mcgraw self) eqn:Em; simpl; auto.
Qed.

(** The first row entry of a search of a non-empty index with [k >= 1]: a
    stored vector whose inner product with the query is the largest. *)
Lemma search_head (index : IndexFlatIP) (q : vec) (k : Z) :
  (1 <= k)%Z ->
  vectors index <> [] ->
  exists n v scores labels,
    search index q k = (dot q v :: scores, Z.of_nat n :: labels)
    /\ vectors index !! n = Some v
    /\ forall j u, vectors index !! j = Some u -> (dot q u <= dot q v)%Q.
Proof.
  intros Hk Hne.
  destruct (ranked_head index q Hne) as (n & v & rest & Hrank & Hv & Hmax).
  unfold search. rewrite Hrank.
  destruct (Z.to_nat k) as [|m] eqn:Ek; [lia|]. simpl.
  now exists n, v, (map fst (take m rest ++ replicate (m - length (take m rest)) no_result)),
    (map snd (take m rest ++ replicate (m - length (take m rest)) no_result)).
Qed.

(** On a non-empty FAQ index with one chunk per vector, the FAQ branch
    returns the chunk whose vector has the largest inner product with the
    query. *)
Lemma faq_result_top (q : vec) (k : Z) :
  (1 <= k)%Z ->
  vectors (faq_index self) <> [] ->
  length (faq_chunks self) = length (vectors (faq_index self)) ->
  exists n v chunk,
    vectors (faq_index self) !! n = Some v
    /\ faq_chunks self !! n = Some chunk
    /\ faq_result self [(search (faq_index self) q k).1] [(search (faq_index self) q k).2]
       = Py.Return {| context := chunk;
                      score := dot q v;
                      source_id := "FAQ_SOURCE_" +:+ Text.of_Z (Z.of_nat n);
                      article_link := extract_article_link chunk |}
    /\ forall j u, vectors (faq_index self) !! j = Some u -> (dot q u <= dot q v)%Q.
Proof.
  intros Hk Hne Hlen.
  destruct (search_head (faq_index self) q k Hk Hne)
    as (n & v & scores & labels & Hsearch & Hv & Hmax).
  assert (Hchunk : exists chunk, faq_chunks self !! n = Some chunk).
  { apply lookup_lt_is_Some. rewrite Hlen. now apply lookup_lt_Some in Hv. }
  destruct Hchunk as [chunk Hchunk].
  exists n, v, chunk. split; [exact Hv|]. split; [exact Hchunk|]. split; [|exact Hmax].
  rewrite Hsearch. unfold faq_result. simpl.
  now rewrite (getitem_nat (faq_chunks self) n chunk Hchunk).
Qed.

End RetrieveFacts.

(** C3: every call of [retrieve] makes exactly two library calls, in this
    order, whatever the model and the vector library answer: one call of the
    embedding model, on the query alone, and one search, with the embedding
    the model returned, of the index selected among the indices loaded at
    start-up.  No chunk is embedded and no index is built on the request
    path. *)
Theorem retrieve_embeds_once_searches_once
    (encode : bool -> string -> Retriever.vec)
    (faiss : Retriever.IndexFlatIP -> Retriever.vec -> Z -> list Q * list Z)
    (select_collection : string -> string)
    (instructions_result :
       string -> list string -> list (list Q) -> list (list Z)
       -> Py.result Retriever.RetrievalResult)
    (self : Retriever.FAQRetriever) (query : string) (k : Z) (collection : string)
    (platform : option string) :
  let trace :=
    fst (Retriever.exec encode faiss
           (Retriever.retrieve select_collection instructions_result self
              query k collection platform)) in
  let sel :=
    Retriever.searched self (Retriever.selected select_collection query collection)
      platform in
  trace = [ Retriever.EvEncode [query] true;
            Retriever.EvSearch sel.1.1 sel.1.2 [encode true query] k ]
  /\ Retriever.count Retriever.is_encode trace = 1
  /\ Retriever.count Retriever.is_search trace = 1
  /\ Retriever.count Retriever.is_build trace = 0
  /\ (sel.1.2 = Retriever.faq_index self
      \/ sel.1.2 = Retriever.instructions_index self
      \/ Retriever.instructions_index_cengage self = Some sel.1.2
      \/ Retriever.instructions_index_mcgraw self = Some sel.1.2)
  /\ forall texts normalize,
       Retriever.EvEncode texts normalize ∈ trace -> texts = [query].
Proof.
  cbv zeta. rewrite retrieve_run. cbn [fst].
  split; [reflexivity|]. split; [reflexivity|]. split; [reflexivity|].
  split; [reflexivity|]. split; [apply searched_is_loaded|].
  intros texts normalize Hin.
  apply elem_of_cons in Hin as [[= -> _]|Hin]; [reflexivity|].
  apply list_elem_of_singleton in Hin. discriminate.
Qed.




(** ** Ingestion: where chunks are embedded and indices are built *)

Section IngestFacts.
Import Retriever.
Variable encode : bool -> string -> vec.
Variable faiss : IndexFlatIP -> vec -> Z -> list Q * list Z.

Lemma build_index_eq (chunks : list string) :
  exec encode faiss (build_index chunks) =
    match chunks with
    | [] => ([EvEncode [] false], Py.Raise (Py.IndexError "tuple index out of range"))
    | _ :: _ =>
        ([EvEncode chunks false; EvBuildIndex (length chunks)],
         Py.Return {| vectors := map (encode false) chunks |})
    end.
Proof.
  destruct chunks as [|c chunks]; [reflexivity|].
  unfold build_index. simpl. now rewrite length_map.
Qed.

Lemma build_index_if_any_eq (chunks : list string) :
  exec encode faiss (build_index_if_any chunks) =
    match chunks with
    | [] => ([], Py.Return None)
    | _ :: _ =>
        ([EvEncode chunks false; EvBuildIndex (length chunks)],
         Py.Return (Some {| vectors := map (encode false) chunks |}))
    end.
Proof.
  destruct chunks as [|c chunks]; [reflexivity|].
  unfold build_index_if_any. rewrite exec_bind, build_index_eq. reflexivity.
Qed.

(** Every index that ingestion builds holds one vector per chunk of its
    list, and a platform without chunks gets no index. *)
Lemma ingest_one_vector_per_chunk (files : list (string * string)) t ing :
  exec encode faiss (ingest_instructions files) = (t, Py.Return ing) ->
  one_vector_per_chunk (Some (index_all ing)) (all_chunks ing)
  /\ one_vector_per_chunk (index_cengage ing) (found_cengage_chunks ing)
  /\ one_vector_per_chunk (index_mcgraw ing) (found_mcgraw_chunks ing).
Proof.
  unfold ingest_instructions.
  rewrite exec_bind, build_index_eq.
  destruct (imap _ files) as [|c0 all]; [discriminate|].
  rewrite exec_bind, build_index_if_any_eq.
  destruct (omap _ _) as [|c1 cengage];
    (rewrite exec_bind, build_index_if_any_eq;
     destruct (omap _ _) as [|c2 mcgraw]; simpl; intros [= _ <-]; simpl;
     rewrite ?length_map; auto).
Qed.

(** Ingestion of at least one file returns. *)
Lemma ingest_returns (files : list (string * string)) :
  files <> [] ->
  exists ing, snd (exec encode faiss (ingest_instructions files)) = Py.Return ing.
Proof.
  intros Hne. unfold ingest_instructions.
  rewrite exec_bind, build_index_eq.
  destruct files as [|f files]; [contradiction|]. cbn [imap].
  rewrite exec_bind, build_index_if_any_eq.
  destruct (omap _ _) as [|c1 cengage];
    (rewrite exec_bind, build_index_if_any_eq;
     destruct (omap _ _) as [|c2 mcgraw]; simpl; eauto).
Qed.

End IngestFacts.
(* ================================================================== *)
(** * Part III: further properties of the code                         *)
(* ================================================================== *)

(** ** The API layer: when requests fulfil and what they log *)

Section ApiMore.
Import Api ApiSessions.

Ltac run_request w rq :=
  destruct (fetch w rq) as [err|resp] eqn:Hfetch; simpl;
  [| destruct (ok resp) eqn:Hok; simpl ].

(** [sendChatMessage] fulfils with exactly the decoded body of an ok
    response, and in no other case. *)
Theorem sendChatMessage_fulfils_iff w base message sessionId data :
  snd (sendChatMessage w base message sessionId) = Fulfilled data
  <-> exists r, fetch w (chat_request base message sessionId) = FetchResolves r
                /\ ok r = true
                /\ parse_chat w (body r) = inr data.
Proof.
  unfold sendChatMessage, await_fetch, await_json.
  run_request w (chat_request base message sessionId).
  - split; [discriminate | intros (r & [=] & _)].
  - destruct (parse_chat w (body resp)) as [e|d] eqn:Hparse; simpl.
    + split; [discriminate|]. intros (r & [= <-] & _ & Hp). congruence.
    + split.
      * intros [= <-]. eauto.
      * intros (r & [= <-] & _ & Hp). congruence.
  - split; [discriminate|]. intros (r & [= <-] & Hok' & _). congruence.
Qed.

(** The three requests that can reject write one [console.error], with the
    error they then rethrow, and write nothing when they fulfil. *)
Theorem requests_log_what_they_rethrow w parse_stats base message sessionId sid :
  match sendChatMessage w base message sessionId with
  | (log, Fulfilled _) => log = []
  | (log, Rejected e) => log = [LogError "Error sending chat message:" e]
  end
  /\ match getSessionStats w parse_stats base with
     | (log, Fulfilled _) => log = []
     | (log, Rejected e) => log = [LogError "Error fetching session stats:" e]
     end
  /\ match clearSession w base sid with
     | (log, Fulfilled _) => log = []
     | (log, Rejected e) => log = [LogError "Error clearing session:" e]
     end.
Proof.
  split; [|split].
  - unfold sendChatMessage, await_fetch, await_json.
    run_request w (chat_request base message sessionId); try reflexivity.
    destruct (parse_chat w (body resp)); reflexivity.
  - unfold getSessionStats, await_fetch.
    run_request w (stats_request base); try reflexivity.
    destruct (parse_stats (body resp)); reflexivity.
  - unfold clearSession, await_fetch.
    run_request w (clear_request base sid); reflexivity.
Qed.

(** [checkApiHealth] answers [false] silently for a non-ok status: it
    logs only when the request itself was rejected. *)
Theorem checkApiHealth_logs_only_rejections w base :
  fst (checkApiHealth w base) =
    match fetch w (stats_request base) with
    | FetchRejects e => [LogError "API health check failed:" e]
    | FetchResolves _ => []
    end.
Proof.
  unfold checkApiHealth, await_fetch.
  destruct (fetch w (stats_request base)); reflexivity.
Qed.

(** [clearSession] fulfils exactly when the DELETE request was answered
    with an ok status; the body of the answer plays no part. *)
Theorem clearSession_fulfils_iff w base sid :
  snd (clearSession w base sid) = Fulfilled tt
  <-> failed (fetch w (clear_request base sid)) = false.
Proof.
  unfold clearSession, await_fetch, failed.
  run_request w (clear_request base sid); rewrite ?Hok; simpl;
    split; (reflexivity || discriminate).
Qed.

(** The statistics and the health check read the same request: the
    statistics arrive exactly when the health check says [true] and the body
    decodes. *)
Theorem stats_arrive_iff_healthy_and_decoded w parse_stats base data :
  snd (getSessionStats w parse_stats base) = Fulfilled data
  <-> snd (checkApiHealth w base) = Fulfilled true
      /\ exists r, fetch w (stats_request base) = FetchResolves r
                   /\ parse_stats (body r) = inr data.
Proof.
  unfold getSessionStats, checkApiHealth, await_fetch.
  run_request w (stats_request base); rewrite ?Hok; simpl.
  - split; [discriminate | intros [[=] _]].
  - destruct (parse_stats (body resp)) as [e|d] eqn:Hparse; simpl.
    + split; [discriminate|]. intros [_ (r & [= <-] & Hp)]. congruence.
    + split.
      * intros [= <-]. eauto.
      * intros [_ (r & [= <-] & Hp)]. congruence.
  - split; [discriminate | intros [[=] _]].
Qed.

End ApiMore.

(** ** The chat component: what every send leaves behind *)

Section AppMore.
Import Api App.

Lemma handleSendMessage_shape w base t0 t1 st content :
  let st' := snd (handleSendMessage w base t0 t1 st content) in
  exists answer,
    messages st' =
      messages st ++
        [ {| id := Text.of_Z t0; type := user; content := content; timestamp := t0;
             confidence := None; source := None; articleLink := None |};
          answer ]
    /\ type answer <> user
    /\ id answer = Text.of_Z (t1 + 1)
    /\ isLoading st' = false
    /\ sessionId st' = sessionId st
    /\ isSidebarOpen st' = isSidebarOpen st.
Proof.
  cbv zeta. unfold handleSendMessage. simpl.
  destruct (sendChatMessage w base content (Some (sessionId st))) as [log [response|error]].
  - simpl. destruct (recommended_pdfs response) as [[|pdf pdfs]|]; simpl;
      destruct (apiStatus st); simpl; rewrite <- app_assoc; simpl;
      eexists; (split; [reflexivity|]); repeat split; discriminate.
  - simpl. rewrite <- app_assoc. simpl.
    eexists; (split; [reflexivity|]); repeat split; discriminate.
Qed.

(** Every call of [handleSendMessage] appends exactly two messages to the
    conversation, the user's message and then one reply that is not a user
    message, leaves the earlier messages, the session id and the sidebar
    alone and ends with the loading flag down. *)
Theorem handleSendMessage_appends_two w base t0 t1 st content :
  let st' := snd (handleSendMessage w base t0 t1 st content) in
  exists answer,
    messages st' =
      messages st ++
        [ {| id := Text.of_Z t0; type := user; content := content; timestamp := t0;
             confidence := None; source := None; articleLink := None |};
          answer ]
    /\ type answer <> user
    /\ id answer = Text.of_Z (t1 + 1)
    /\ isLoading st' = false
    /\ sessionId st' = sessionId st
    /\ isSidebarOpen st' = isSidebarOpen st.
Proof. apply handleSendMessage_shape. Qed.


End AppMore.

(** ** The message box *)

Section ChatInputFacts.
Import ChatInput.

Lemma trim_start_nil (l : list Text.uchar) :
  Js.trim_start l = [] <-> Forall (fun c => Js.is_space c = true) l.
Proof.
  induction l as [|c l IH]; simpl; [split; [constructor | reflexivity]|].
  destruct (Js.is_space c) eqn:E.
  - rewrite IH. split; [now constructor | now inversion 1].
  - split; [discriminate | inversion 1; congruence].
Qed.

Lemma trim_start_head (l : list Text.uchar) :
  match Js.trim_start l with
  | [] => True
  | c :: _ => Js.is_space c = false
  end.
Proof.
  induction l as [|c l IH]; simpl; [exact I|].
  destruct (Js.is_space c) eqn:E; [exact IH | exact E].
Qed.

Lemma trim_chars_nil (l : list Text.uchar) :
  Js.trim_chars l = [] <-> Forall (fun c => Js.is_space c = true) l.
Proof.
  unfold Js.trim_chars. rewrite <- trim_start_nil. split.
  - intros H. apply (f_equal (@rev Text.uchar)) in H. rewrite rev_involutive in H.
    simpl in H. apply trim_start_nil in H.
    pose proof (trim_start_head l) as Hh.
    destruct (Js.trim_start l) as [|c t]; [reflexivity|].
    exfalso. rewrite Forall_forall in H.
    assert (Hc : Js.is_space c = true).
    { apply H. apply list_elem_of_In, in_rev. rewrite rev_involutive. now left. }
    congruence.
  - now intros ->.
Qed.

Lemma Forall_trim_start (P : Text.uchar -> Prop) (l : list Text.uchar) :
  Forall P l -> Forall P (Js.trim_start l).
Proof.
  induction 1 as [|c l Hc Hl IH]; simpl; [constructor|].
  destruct (Js.is_space c); [exact IH | now constructor].
Qed.

Lemma Forall_trim_chars (P : Text.uchar -> Prop) (l : list Text.uchar) :
  Forall P l -> Forall P (Js.trim_chars l).
Proof.
  intros H. unfold Js.trim_chars.
  apply Forall_rev, Forall_trim_start, Forall_rev, Forall_trim_start, H.
Qed.

(** A draft trims to nothing exactly when it is made of white space. *)
Lemma trim_blank (message : string) : Js.trim message = "" <-> blank message.
Proof.
  unfold Js.trim, blank, Text.of_uchars, Text.uchars.
  rewrite of_chars_nil, <- trim_chars_nil. split.
  - apply concat_nil_nonempty, Forall_trim_chars, group_nonempty.
  - now intros ->.
Qed.

Lemma handleSubmit_cases (message : string) (disabled : bool) :
  (handleSubmit message disabled = {| sent := None; draft := message |}
   /\ (disabled = true \/ blank message))
  \/ (handleSubmit message disabled = {| sent := Some message; draft := "" |}
      /\ disabled = false /\ ~ blank message).
Proof.
  unfold handleSubmit.
  destruct (bool_decide (Js.trim message = "")) eqn:E; simpl.
  - left. split; [reflexivity|]. right. apply trim_blank.
    now apply bool_decide_eq_true in E.
  - destruct disabled; simpl.
    + left. split; [reflexivity | now left].
    + right. split; [reflexivity|]. split; [reflexivity|].
      rewrite <- trim_blank. now apply bool_decide_eq_false in E.
Qed.

(** [handleSubmit] hands nothing on, and keeps the draft, exactly when the
    box is disabled or the draft is blank; otherwise it hands on the draft as
    typed, surrounding blanks included, and empties the box. *)
Theorem handleSubmit_sends_iff (message : string) (disabled : bool) :
  (handleSubmit message disabled = {| sent := None; draft := message |}
   <-> disabled = true \/ blank message)
  /\ (handleSubmit message disabled = {| sent := Some message; draft := "" |}
      <-> disabled = false /\ ~ blank message).
Proof.
  destruct (handleSubmit_cases message disabled) as [[-> H]|[-> [Hd Hb]]].
  - split; [tauto|]. split; [discriminate|].
    intros [Hd Hb]. destruct H; [congruence | contradiction].
  - split; [|tauto]. split; [discriminate|].
    intros [H|H]; [congruence | contradiction].
Qed.

(** A key press sends something only when it is Enter without Shift on an
    enabled box with a draft that is not blank; every other key press,
    Shift+Enter included, leaves the draft as it is and sends nothing. *)
Theorem handleKeyDown_sends_iff (key : string) (shiftKey : bool)
    (message : string) (disabled : bool) :
  (sent (handleKeyDown key shiftKey message disabled) = Some message
   <-> key = "Enter" /\ shiftKey = false /\ disabled = false /\ ~ blank message)
  /\ (sent (handleKeyDown key shiftKey message disabled) = None
      <-> draft (handleKeyDown key shiftKey message disabled) = message
          /\ ~ (key = "Enter" /\ shiftKey = false /\ disabled = false
                /\ ~ blank message)).
Proof.
  unfold handleKeyDown.
  destruct (bool_decide (key = "Enter")) eqn:Ek;
    [apply bool_decide_eq_true in Ek | apply bool_decide_eq_false in Ek];
    destruct shiftKey; simpl;
    try destruct (handleSubmit_cases message disabled) as [[-> H]|[-> [Hd Hb]]];
    simpl; split; split; intros;
    first [ discriminate | solve [intuition congruence] ].
Qed.

(** Wired to the chat, the box changes the conversation exactly when it is
    not loading and the draft is not blank: then two messages are appended
    and the box is emptied; otherwise conversation and draft stay as they
    are. *)
Theorem submit_changes_chat_iff w base t0 t1 st message :
  (fst (submit w base t0 t1 st message) = st
   <-> App.isLoading st = true \/ blank message)
  /\ (App.isLoading st = true \/ blank message ->
        submit w base t0 t1 st message = (st, message))
  /\ (App.isLoading st = false /\ ~ blank message ->
        snd (submit w base t0 t1 st message) = ""
        /\ length (App.messages (fst (submit w base t0 t1 st message)))
           = 2 + length (App.messages st)).
Proof.
  unfold submit.
  destruct (handleSubmit_cases message (App.isLoading st)) as [[-> H]|[-> [Hd Hb]]];
    simpl.
  - split; [tauto|]. split; [reflexivity|].
    intros [Hd Hb]. destruct H; [congruence | contradiction].
  - destruct (handleSendMessage_shape w base t0 t1 st message)
      as (answer & Hm & _).
    assert (Hlen : length (App.messages (snd (App.handleSendMessage w base t0 t1 st message)))
                   = 2 + length (App.messages st)).
    { rewrite Hm, length_app. simpl. lia. }
    split; [|split].
    + split.
      * intros Heq. rewrite Heq in Hlen. lia.
      * intros [H|H]; [congruence | contradiction].
    + intros [H|H]; [congruence | contradiction].
    + intros _. split; [reflexivity | exact Hlen].
Qed.

Lemma submit_changes_chat_iff_witness :
  submit Api.offline "http://localhost:8000" 1 2 (App.initial "s") "   "
    = (App.initial "s", "   ")
  /\ snd (submit Api.offline "http://localhost:8000" 1 2 (App.initial "s") " hi ") = "".
Proof.
  split.
  - apply (proj1 (proj2 (submit_changes_chat_iff Api.offline "http://localhost:8000"
                           1 2 (App.initial "s") "   "))).
    right. repeat constructor.
  - apply (proj2 (proj2 (submit_changes_chat_iff Api.offline "http://localhost:8000"
                           1 2 (App.initial "s") " hi "))).
    split; [reflexivity|]. intros H. apply trim_blank in H. discriminate.
Defined.

End ChatInputFacts.

(** ** Static PDF recommendations *)

Section PdfFacts.
Import Pdf.

Lemma lower_upper_char (c : ascii) :
  Text.lower_char (Text.upper_char c) = Text.lower_char c.
Proof. destruct c as [[] [] [] [] [] [] [] []]; reflexivity. Qed.

Lemma lower_lower_char (c : ascii) :
  Text.lower_char (Text.lower_char c) = Text.lower_char c.
Proof. destruct c as [[] [] [] [] [] [] [] []]; reflexivity. Qed.

Lemma lower_upper (s : string) : Text.lower (Text.upper s) = Text.lower s.
Proof.
  induction s as [|c s IH]; simpl; [reflexivity|].
  unfold Text.lower, Text.upper in *. simpl. now rewrite lower_upper_char, IH.
Qed.

Lemma lower_lower (s : string) : Text.lower (Text.lower s) = Text.lower s.
Proof.
  induction s as [|c s IH]; simpl; [reflexivity|].
  unfold Text.lower in *. simpl. now rewrite lower_lower_char, IH.
Qed.

Lemma platform_is_known (source query : string) :
  extractPlatformFromSource source query ∈ platforms.
Proof.
  unfold extractPlatformFromSource, platforms.
  repeat match goal with
         | |- context [if ?b then _ else _] => destruct b
         end;
    repeat first [ apply list_elem_of_here | apply list_elem_of_further ].
Qed.

(** The platform read off a source id and a query is one of seven fixed
    names; [connect] is not among them, so the test for it in
    [updatePDFRecommendations] never holds. *)
Theorem extractPlatformFromSource_range (source query : string) :
  extractPlatformFromSource source query ∈ platforms
  /\ extractPlatformFromSource source query <> "connect".
Proof.
  pose proof (platform_is_known source query) as H. split; [exact H|].
  intros Heq. rewrite Heq in H. unfold platforms in H.
  repeat (apply elem_of_cons in H as [H|H]; [discriminate|]).
  inversion H.
Qed.

(** The platform does not depend on the case of the source id or of the
    query. *)
Theorem extractPlatformFromSource_ignores_case (source query : string) :
  extractPlatformFromSource (Text.upper source) (Text.upper query)
    = extractPlatformFromSource source query
  /\ extractPlatformFromSource (Text.lower source) (Text.lower query)
     = extractPlatformFromSource source query.
Proof.
  unfold extractPlatformFromSource. now rewrite !lower_upper, !lower_lower.
Qed.

(** The recommendations are either none, or between one and three guides
    followed by the troubleshooting entry, which comes last and once; no two
    entries share an id. *)
Theorem updatePDFRecommendations_shape (query : string) (source : option string) :
  let recs := updatePDFRecommendations query source in
  (recs = []
   \/ exists guides,
        recs = guides ++ [troubleshooting]
        /\ 1 <= length guides <= 3
        /\ troubleshooting ∉ guides)
  /\ NoDup (map id recs).
Proof.
  cbv zeta. unfold updatePDFRecommendations.
  match goal with
  | |- context [extractPlatformFromSource ?s ?q] =>
      pose proof (platform_is_known s q) as H;
      generalize dependent (extractPlatformFromSource s q)
  end.
  intros p H. unfold platforms in H.
  repeat (apply elem_of_cons in H as [->|H]); [..|inversion H];
    destruct (Js.includes (Text.lower query) "textbook");
    destruct (Js.includes (Text.lower query) "immediate access");
    cbn -[cengage_mindtap cengage_etextbook mcgraw_connect mcgraw_tools
          pearson_mylab simucase_setup immediate_access troubleshooting];
    (split;
     [ first [ left; reflexivity
             | right; eexists; split;
               [ first [ exact (eq_refl : [_; _] = [_] ++ [_])
                       | exact (eq_refl : [_; _; _] = [_; _] ++ [_])
                       | exact (eq_refl : [_; _; _; _] = [_; _; _] ++ [_]) ]
               | split; [simpl; lia|];
                 intros Hin;
                 repeat (apply elem_of_cons in Hin as [Hin|Hin]; [discriminate|]);
                 inversion Hin ] ]
     | simpl; repeat constructor;
       intros Hin;
       repeat (apply elem_of_cons in Hin as [Hin|Hin]; [discriminate|]);
       inversion Hin ]).
Qed.

(** No recommendation at all is made exactly when the platform is
    Bedford, Sage or unknown and the query does not mention Immediate
    Access. *)
Theorem updatePDFRecommendations_empty_iff (query : string) (source : option string) :
  updatePDFRecommendations query source = []
  <-> extractPlatformFromSource
        (match source with Some s => s | None => "" end) (Text.lower query)
        ∈ ["bedford"; "sage"; "general"]
      /\ Js.includes (Text.lower query) "immediate access" = false.
Proof.
  unfold updatePDFRecommendations.
  match goal with
  | |- context [extractPlatformFromSource ?s ?q] =>
      pose proof (platform_is_known s q) as H;
      generalize dependent (extractPlatformFromSource s q)
  end.
  intros p H. unfold platforms in H.
  repeat (apply elem_of_cons in H as [->|H]); [..|inversion H];
    destruct (Js.includes (Text.lower query) "textbook");
    destruct (Js.includes (Text.lower query) "immediate access");
    cbn -[cengage_mindtap cengage_etextbook mcgraw_connect mcgraw_tools
          pearson_mylab simucase_setup immediate_access troubleshooting];
    (split;
     [ first [ discriminate
             | intros _; split; [|reflexivity];
               repeat first [ apply list_elem_of_here | apply list_elem_of_further ] ]
     | first [ reflexivity
             | intros [Hin Hf]; try discriminate;
               repeat (apply elem_of_cons in Hin as [Hin|Hin]; [discriminate|]);
               inversion Hin ] ]).
Qed.

End PdfFacts.


(** ** The model client and the endpoint *)

Section BackendMore.
Import Py Backend Ollama.

Lemma raise_for_status_returns (status_code : Z) (reason : string) :
  raise_for_status status_code reason = Return tt
  <-> ~ (400 <= status_code < 600)%Z.
Proof.
  unfold raise_for_status.
  destruct (400 <=? status_code)%Z eqn:E1; destruct (status_code <? 500)%Z eqn:E2;
    destruct (500 <=? status_code)%Z eqn:E3; destruct (status_code <? 600)%Z eqn:E4;
    simpl; rewrite ?Z.leb_le, ?Z.leb_gt, ?Z.ltb_lt, ?Z.ltb_ge in *;
    split; first [ discriminate | reflexivity | lia | intros; lia ].
Qed.

(** [LlamaClient.chat] returns only when the model server answered with a
    status outside 400..599 and a body holding [message.content], and then it
    returns exactly that content. *)
Theorem LlamaClient_chat_returns_iff post user_message content :
  LlamaClient_chat post user_message = Return content
  <-> exists status_code reason,
        post (chat_payload user_message)
          = PostReturns status_code reason (Return (MessageContent content))
        /\ ~ (400 <= status_code < 600)%Z.
Proof.
  unfold LlamaClient_chat. fold (chat_payload user_message).
  destruct (post (chat_payload user_message)) as [e|status_code reason json].
  - split; [discriminate | intros (? & ? & [=] & _)].
  - pose proof (raise_for_status_returns status_code reason) as Hs.
    destruct (raise_for_status status_code reason) as [[]|e]; simpl.
    + destruct json as [[repr|repr|c]|e]; simpl.
      * split; [discriminate | intros (? & ? & [=] & _)].
      * split; [discriminate | intros (? & ? & [=] & _)].
      * split.
        -- intros [= ->]. exists status_code, reason. split; [reflexivity|].
           now apply Hs.
        -- intros (? & ? & [= <- <- <-] & _). reflexivity.
      * split; [discriminate | intros (? & ? & [=] & _)].
    + split; [discriminate|]. intros (? & ? & [= <- <- ->] & Hrange).
      apply Hs in Hrange. discriminate.
Qed.

End BackendMore.

(** ** The session store: sweeps and repeated use *)

Section StoreMore.
Import Store.
Implicit Types (sessions : gmap string Session) (sid : string) (now : Z).

Lemma get_or_create_lookup now sid sessions :
  exists s, get_or_create_session now sid sessions
            = (<[sid := s]> sessions, Py.Return s)
            /\ last_activity s = now
            /\ (sessions !! sid = None -> s = new_session now)
            /\ (forall s0, sessions !! sid = Some s0 -> s = set_last_activity now s0).
Proof.
  destruct (sessions !! sid) as [s0|] eqn:Hlk.
  - exists (set_last_activity now s0).
    rewrite (get_or_create_known now sid sessions s0 Hlk).
    repeat split; [discriminate | now intros ? [= ->]].
  - exists (new_session now).
    rewrite (get_or_create_new now sid sessions Hlk).
    repeat split; discriminate.
Qed.

(** A session that was just handed out outlives every sweep made within
    the timeout: the sweep at [later] keeps it as long as it has not been
    idle for more than [SESSION_TIMEOUT]. *)
Theorem used_session_survives_sweep now later sid sessions :
  (later - now <= SESSION_TIMEOUT)%Z ->
  exists s,
    snd (get_or_create_session now sid sessions) = Py.Return s
    /\ cleanup_expired_sessions later (fst (get_or_create_session now sid sessions))
         !! sid = Some s.
Proof.
  intros Hle. destruct (get_or_create_lookup now sid sessions) as (s & -> & Hact & _).
  exists s. split; [reflexivity|]. simpl.
  rewrite cleanup_lookup, lookup_insert_eq.
  destruct (is_expired later s) eqn:E; [|reflexivity].
  apply is_expired_spec in E. lia.
Qed.

Lemma used_session_survives_sweep_witness :
  exists s,
    snd (get_or_create_session 10 "s1" ∅) = Py.Return s
    /\ cleanup_expired_sessions (10 + SESSION_TIMEOUT)
         (fst (get_or_create_session 10 "s1" ∅)) !! "s1" = Some s.
Proof.
  apply (used_session_survives_sweep 10 (10 + SESSION_TIMEOUT) "s1" ∅).
  unfold SESSION_TIMEOUT. lia.
Defined.

(** A sweep only removes: what it leaves is part of what was there, a
    second sweep at the same time removes nothing more, and a sweep followed
    by a later one leaves what the later one alone would leave. *)
Theorem sweeps_compose now later sessions :
  (now <= later)%Z ->
  cleanup_expired_sessions now sessions ⊆ sessions
  /\ cleanup_expired_sessions now (cleanup_expired_sessions now sessions)
     = cleanup_expired_sessions now sessions
  /\ cleanup_expired_sessions later (cleanup_expired_sessions now sessions)
     = cleanup_expired_sessions later sessions.
Proof.
  intros Hle. split; [|split].
  - apply map_subseteq_spec. intros sid s. rewrite cleanup_lookup.
    destruct (sessions !! sid) as [d|]; [|discriminate].
    destruct (is_expired now d); [discriminate | tauto].
  - apply map_eq. intros sid. rewrite !cleanup_lookup.
    destruct (sessions !! sid) as [d|]; [|reflexivity].
    destruct (is_expired now d) eqn:E; [reflexivity | now rewrite E].
  - apply map_eq. intros sid. rewrite !cleanup_lookup.
    destruct (sessions !! sid) as [d|]; [|reflexivity].
    destruct (is_expired now d) eqn:E; [|reflexivity].
    destruct (is_expired later d) eqn:E'; [reflexivity|].
    apply is_expired_spec in E.
    assert (~ (later - last_activity d > SESSION_TIMEOUT)%Z) as Hn
      by (rewrite <- is_expired_spec; congruence).
    lia.
Qed.

Lemma sweeps_compose_witness :
  cleanup_expired_sessions 20
    (cleanup_expired_sessions 10 {["s1" := Conversation.sample_waiting]})
  = cleanup_expired_sessions 20 {["s1" := Conversation.sample_waiting]}.
Proof.
  apply (proj2 (proj2 (sweeps_compose 10 20 {["s1" := Conversation.sample_waiting]}
                         ltac:(lia)))).
Defined.

(** Using an id adds it to the store and nothing else: the ids after the
    call are the ids before plus this one, so the store grows by at most one
    session, and a second use at the same instant changes nothing. *)
Theorem get_or_create_session_ids now sid sessions :
  dom (fst (get_or_create_session now sid sessions)) = {[sid]} ∪ dom sessions
  /\ (size (fst (get_or_create_session now sid sessions))
      = if decide (sid ∈ dom sessions) then size sessions else S (size sessions))
  /\ get_or_create_session now sid (fst (get_or_create_session now sid sessions))
     = get_or_create_session now sid sessions.
Proof.
  destruct (sessions !! sid) as [s0|] eqn:Hlk.
  - rewrite (get_or_create_known now sid sessions s0 Hlk). simpl.
    split; [apply dom_insert_L|]. split.
    + rewrite decide_True by (apply elem_of_dom; eauto).
      rewrite <- !size_dom, dom_insert_L.
      f_equal. apply subseteq_union_1_L, singleton_subseteq_l.
      now apply elem_of_dom_2 in Hlk.
    + rewrite (get_or_create_known now sid _ (set_last_activity now s0))
        by apply lookup_insert_eq.
      now rewrite insert_insert_eq.
  - rewrite (get_or_create_new now sid sessions Hlk). simpl.
    split; [apply dom_insert_L|]. split.
    + rewrite decide_False by (now apply not_elem_of_dom).
      now apply map_size_insert_None.
    + rewrite (get_or_create_known now sid _ (new_session now))
        by apply lookup_insert_eq.
      now rewrite insert_insert_eq.
Qed.

End StoreMore.

(** ** Conversation state: a reply without a course code *)

Section ConversationMore.
Import Store Conversation.

(** While a course code is awaited, a reply in which none is found is
    treated like one with a code: the pending flag and the stash are cleared,
    the stashed intent and platform are handed on with no course code, and
    the reply is appended to the history. *)
Theorem reply_without_code_clears_pending extract detect message session :
  awaiting_course_code session = true ->
  extract message = None ->
  handle_user_message extract detect message session
  = ({| history := history session ++ [ {| role := "user"; content := message |} ];
        awaiting_course_code := false;
        stored_intent := None;
        stored_platform := None;
        last_activity := last_activity session |},
     {| course_code := None;
        intent := stored_intent session;
        platform := stored_platform session |}).
Proof.
  intros Hwait Hnone. unfold handle_user_message, state_handling.
  now rewrite Hwait, Hnone.
Qed.

Lemma reply_without_code_clears_pending_witness :
  awaiting_course_code
    (fst (handle_user_message extract_course_code_spec no_detection
            "I do not know it" sample_waiting)) = false.
Proof.
  rewrite (reply_without_code_clears_pending extract_course_code_spec no_detection
             "I do not know it" sample_waiting eq_refl eq_refl).
  reflexivity.
Defined.

Lemma append_assoc3 (a b c : string) : (a +:+ b) +:+ c = a +:+ b +:+ c.
Proof.
  induction a as [|x a IH]; [reflexivity|].
  change (String x ((a +:+ b) +:+ c) = String x (a +:+ b +:+ c)). now rewrite IH.
Qed.

Lemma append_length (a b : string) :
  String.length (a +:+ b) = String.length a + String.length b.
Proof.
  induction a as [|x a IH]; [reflexivity|].
  change (S (String.length (a +:+ b)) = S (String.length a + String.length b)).
  now rewrite IH.
Qed.

Lemma first_assistant_elem (l : list Turn) (r : string) :
  first_assistant l = Some r -> {| role := "assistant"; content := r |} ∈ l.
Proof.
  induction l as [|[ro co] l IH]; simpl; [discriminate|].
  destruct (bool_decide (ro = "assistant")) eqn:E.
  - apply bool_decide_eq_true in E. intros [= <-]. subst ro. constructor.
  - intros H. apply list_elem_of_further. now apply IH.
Qed.

(** The contextual query always ends with the message as typed.  What is
    put in front of it is either nothing or at most 200 characters of a
    non-empty assistant turn of the history and one blank; text of user
    turns never enters the query. *)
Theorem contextual_query_keeps_message (message : string) (history : list Turn) :
  exists context,
    build_contextual_query message history = context +:+ message
    /\ Text.len context <= 201
    /\ (context = ""
        \/ exists r, {| role := "assistant"; content := r |} ∈ history
                     /\ r <> ""
                     /\ context = Text.prefix_slice 200 r +:+ " ").
Proof.
  unfold build_contextual_query.
  destruct (_ || _); [exists ""; split; [reflexivity | split; [change (Text.len "") with 0; lia | now left]]|].
  destruct (first_assistant (rev history)) as [r|] eqn:Hr;
    [|exists ""; split; [reflexivity | split; [change (Text.len "") with 0; lia | now left]]].
  destruct (bool_decide (r = "")) eqn:Er;
    [exists ""; split; [reflexivity | split; [change (Text.len "") with 0; lia | now left]]|].
  destruct (existsb _ _);
    [|exists ""; split; [reflexivity | split; [change (Text.len "") with 0; lia | now left]]].
  exists (Text.prefix_slice 200 r +:+ " ").
  split; [symmetry; apply append_assoc3|]. split.
  - rewrite len_append_blank. pose proof (len_prefix_slice 200 r). lia.
  - right. exists r. split; [|split; [now apply bool_decide_eq_false in Er | reflexivity]].
    apply first_assistant_elem in Hr.
    apply list_elem_of_In. apply in_rev. now apply list_elem_of_In.
Qed.

End ConversationMore.


(** ** The retrieval router: source ids and dual retrieval *)

Section RetrieverMore.
Import Py Retriever.
Variable encode : bool -> string -> vec.
Variable faiss : IndexFlatIP -> vec -> Z -> list Q * list Z.
Variable select_collection : string -> string.
Variable instructions_result :
  string -> list string -> list (list Q) -> list (list Z) -> result RetrievalResult.
Variable self : FAQRetriever.

(** The source id of an FAQ result names the chunk it carries: it is
    [FAQ_SOURCE_n] for the position [n] at which the returned text stands in
    the list of FAQ chunks. *)
Theorem faq_source_id_names_chunk query k collection platform :
  selected select_collection query collection <> "instructions" ->
  (1 <= k)%Z ->
  vectors (faq_index self) <> [] ->
  length (faq_chunks self) = length (vectors (faq_index self)) ->
  exists r n,
    snd (exec encode search
           (retrieve select_collection instructions_result self query k collection platform))
      = Return r
    /\ source_id r = "FAQ_SOURCE_" +:+ Text.of_Z (Z.of_nat n)
    /\ faq_chunks self !! n = Some (context r).
Proof.
  intros Hcoll Hk Hne Hlen.
  destruct (faq_result_top self (encode true query) k Hk Hne Hlen)
    as (n & v & chunk & Hv & Hchunk & Hret & _).
  eexists. exists n. rewrite retrieve_run. cbv zeta. cbn [snd].
  unfold searched. rewrite bool_decide_eq_false_2 by exact Hcoll.
  split; [exact Hret|]. simpl. split; [reflexivity | exact Hchunk].
Qed.

Lemma selected_given (query collection : string) :
  collection <> "auto" -> selected select_collection query collection = collection.
Proof. intros H. unfold selected. now rewrite bool_decide_eq_false_2. Qed.


End RetrieverMore.

Lemma faq_source_id_names_chunk_witness :
  exists r n,
    snd (Retriever.exec Retriever.sample_encode Retriever.search
           (Retriever.retrieve Retriever.always_faqs Retriever.sample_instructions_result
              Retriever.sample_retriever "How do I get a refund?" 1 "auto" None))
      = Py.Return r
    /\ Retriever.source_id r = "FAQ_SOURCE_" +:+ Text.of_Z (Z.of_nat n)
    /\ Retriever.faq_chunks Retriever.sample_retriever !! n
       = Some (Retriever.context r).
Proof.
  apply (faq_source_id_names_chunk Retriever.sample_encode Retriever.always_faqs
           Retriever.sample_instructions_result
           Retriever.sample_retriever "How do I get a refund?" 1 "auto" None).
  - discriminate.
  - lia.
  - discriminate.
  - reflexivity.
Defined.


(** ** What an article link can look like *)

Section LinkShape.
Import Retriever Regex.

Lemma Forall_app_l {A} (P : A -> Prop) (l1 l2 : list A) :
  Forall P (l1 ++ l2) -> Forall P l1.
Proof. now intros H%Forall_app. Qed.

Lemma Forall_app_r {A} (P : A -> Prop) (l1 l2 : list A) :
  Forall P (l1 ++ l2) -> Forall P l2.
Proof. now intros H%Forall_app. Qed.

(** Group 1 of a match of the link pattern is a non-empty run of link
    characters of the input. *)
Lemma article_link_group (s : list Text.uchar) (m : capture Text.uchar) :
  search article_link_pattern s = Some m ->
  exists a g b, s = a ++ g ++ b /\ group1 m = Some g /\ g <> []
                /\ Forall (fun c => link_char c = true) g.
Proof.
  intros H. apply search_inv in H as (pre & s0 & -> & H).
  unfold article_link_pattern in H. rewrite run_lit in H.
  destruct (strip_prefix article_link_marker s0) as [s1|] eqn:E1; [|discriminate].
  apply strip_prefix_Some in E1. subst s0.
  rewrite run_star in H. apply star_inv in H as (ws & s2 & -> & _ & H).
  assert (Hgroup : forall s3,
    run [OpenGroup; Plus link_char; CloseGroup; Opt is_dquote] no_capture s3 = Some m ->
    exists g b, s3 = g ++ b /\ group1 m = Some g /\ g <> []
                /\ Forall (fun c => link_char c = true) g).
  { intros s3 Hr. rewrite run_open, run_plus in Hr.
    destruct s3 as [|x s4]; [discriminate|].
    destruct (link_char x) eqn:Ex; [|discriminate].
    apply star_inv in Hr as (g & rest & -> & Hg & Hr).
    rewrite run_close in Hr.
    assert (Hm : m = close_group {| opened := Some (x :: g ++ rest); group1 := None |} rest).
    { apply opt_inv in Hr as [Hr | (y & s' & _ & _ & Hr)];
        rewrite run_nil in Hr; now injection Hr. }
    subst m. unfold close_group. cbn [opened group1].
    exists (x :: g), rest. split; [reflexivity|].
    split; [|split; [discriminate | now constructor]].
    f_equal. change (x :: g ++ rest) with ((x :: g) ++ rest).
    replace (length ((x :: g) ++ rest) - length rest) with (length (x :: g))
      by (rewrite length_app; lia).
    apply take_app_length. }
  apply opt_inv in H as [H | (y & s' & -> & _ & H)].
  - destruct (Hgroup _ H) as (g & b & -> & Hg1 & Hne & Hg).
    exists (pre ++ article_link_marker ++ ws), g, b.
    split; [now rewrite <- !app_assoc | auto].
  - destruct (Hgroup _ H) as (g & b & -> & Hg1 & Hne & Hg).
    exists (pre ++ article_link_marker ++ ws ++ [y]), g, b.
    split; [now rewrite <- !app_assoc | auto].
Qed.

Lemma lstrip_suffix (l : list Text.uchar) : exists pre, l = pre ++ Text.lstrip l.
Proof.
  induction l as [|c l [pre IH]]; simpl; [now exists []|].
  destruct (Text.is_space c); [|now exists []].
  exists (c :: pre). simpl. now rewrite <- IH.
Qed.

Lemma lstrip_head (l : list Text.uchar) :
  match Text.lstrip l with [] => True | c :: _ => Text.is_space c = false end.
Proof.
  induction l as [|c l IH]; simpl; [exact I|].
  destruct (Text.is_space c) eqn:E; [exact IH | exact E].
Qed.

Lemma lstrip_fixed (l : list Text.uchar) :
  match l with [] => True | c :: _ => Text.is_space c = false end ->
  Text.lstrip l = l.
Proof. destruct l as [|c l]; simpl; [reflexivity | now intros ->]. Qed.

(** What stripping leaves is a stretch of the characters it was given. *)
Lemma strip_chars_segment (l : list Text.uchar) :
  exists a b, l = a ++ Text.strip_chars l ++ b.
Proof.
  unfold Text.strip_chars.
  destruct (lstrip_suffix l) as [a Ha].
  destruct (lstrip_suffix (rev (Text.lstrip l))) as [b Hb].
  exists a, (rev b). rewrite <- rev_app_distr, <- Hb, rev_involutive. exact Ha.
Qed.

Lemma Forall_strip_chars (P : Text.uchar -> Prop) (l : list Text.uchar) :
  Forall P l -> Forall P (Text.strip_chars l).
Proof.
  destruct (strip_chars_segment l) as (a & b & Hl). intros H. rewrite Hl in H.
  now apply Forall_app_r, Forall_app_l in H.
Qed.

(** The last character of a suffix is the last character of the list. *)
Lemma rev_head_of_suffix (pre z : list Text.uchar) :
  z <> [] -> hd_error (rev (pre ++ z)) = hd_error (rev z).
Proof.
  intros Hz. rewrite rev_app_distr.
  destruct (rev z) as [|c t] eqn:E; [|reflexivity].
  apply (f_equal (@rev Text.uchar)) in E. rewrite rev_involutive in E. contradiction.
Qed.

(** Stripping twice is stripping once. *)
Lemma strip_chars_idempotent (l : list Text.uchar) :
  Text.strip_chars (Text.strip_chars l) = Text.strip_chars l.
Proof.
  unfold Text.strip_chars.
  set (y := Text.lstrip l). set (z := Text.lstrip (rev y)).
  assert (Hz : match z with [] => True | c :: _ => Text.is_space c = false end)
    by apply lstrip_head.
  assert (Hrz : Text.lstrip (rev z) = rev z).
  { apply lstrip_fixed. destruct z as [|c0 z0] eqn:Ez; [exact I|].
    destruct (lstrip_suffix (rev y)) as [pre Hpre]. fold z in Hpre. rewrite Ez in Hpre.
    assert (Hhd : hd_error (rev (c0 :: z0)) = hd_error y).
    { rewrite <- (rev_head_of_suffix pre (c0 :: z0)) by discriminate.
      now rewrite <- Hpre, rev_involutive. }
    pose proof (lstrip_head l) as Hy. fold y in Hy.
    destruct (rev (c0 :: z0)) as [|c t]; [exact I|].
    destruct y as [|cy ty]; [discriminate|]. simpl in Hhd. now injection Hhd as ->. }
  rewrite Hrz, rev_involutive. now rewrite (lstrip_fixed z Hz).
Qed.

(** A byte below 0x80 is a character of its own. *)
Lemma group_ascii_alone (l : list ascii) (u : Text.uchar) (c : ascii) :
  u ∈ Text.group l -> c ∈ u ->
  Text.is_lead c = false -> Text.is_cont c = false -> u = [c].
Proof.
  intros Hu Hc Hl Hk. revert Hu. induction l as [|x l IH]; simpl.
  - intros H. inversion H.
  - destruct (Text.is_lead x) eqn:Ex.
    + pose proof (absorb_spec (Text.group l)) as (Hgs & Hks & _).
      destruct (Text.absorb (Text.group l)) as [ks rest]. simpl in *.
      intros [->|Hu]%elem_of_cons.
      * exfalso. apply elem_of_cons in Hc as [->|Hc]; [congruence|].
        rewrite Forall_forall in Hks. specialize (Hks c Hc). congruence.
      * apply IH. rewrite Hgs. apply elem_of_app. now right.
    + intros [->|Hu]%elem_of_cons; [|now apply IH].
      apply list_elem_of_singleton in Hc. now subst.
Qed.

(** Any stretch of the characters of a string is the list of characters
    of the string it spells. *)
Lemma group_drop (l : list ascii) (n : nat) :
  Text.group (concat (drop n (Text.group l))) = drop n (Text.group l).
Proof.
  revert n. induction l as [|c l IH]; intros n; [now destruct n|].
  destruct n as [|n]; [rewrite drop_0; now rewrite concat_group|].
  simpl. destruct (Text.is_lead c).
  - pose proof (absorb_spec (Text.group l)) as (Hgs & _ & _).
    destruct (Text.absorb (Text.group l)) as [ks rest]. simpl in *.
    specialize (IH (length ks + n)). rewrite Hgs in IH.
    rewrite drop_app_add' in IH by now rewrite length_map.
    exact IH.
  - simpl. apply IH.
Qed.

Lemma group_segment (l : list ascii) (a seg b : list Text.uchar) :
  Text.group l = a ++ seg ++ b -> Text.group (concat seg) = seg.
Proof.
  intros H.
  assert (Hd : drop (length a) (Text.group l) = seg ++ b)
    by (rewrite H; apply drop_app_length).
  pose proof (group_drop l (length a)) as Hg. rewrite Hd in Hg.
  pose proof (group_take (concat (seg ++ b)) (length seg)) as Ht.
  rewrite Hg in Ht. now rewrite take_app_length in Ht.
Qed.

(** Whatever the chunk, an article link that is found contains neither a
    double quote nor a newline and carries no white space at its ends. *)
Theorem article_link_is_clean (chunk link : string) :
  extract_article_link chunk = Some link ->
  Forall (fun c => c <> Text.dquote /\ c <> Text.newline) (Text.chars link)
  /\ Text.strip link = link.
Proof.
  unfold extract_article_link.
  destruct (search article_link_pattern (Text.uchars chunk)) as [m|] eqn:Hs;
    [|discriminate].
  destruct (article_link_group _ _ Hs) as (a & g & b & Hseg & -> & _ & Hg).
  intros [= <-].
  destruct (strip_chars_segment g) as (a' & b' & Hg').
  assert (Hseg' : Text.group (Text.chars chunk)
                  = (a ++ a') ++ Text.strip_chars g ++ (b' ++ b)).
  { unfold Text.uchars in Hseg. rewrite Hseg. rewrite Hg' at 1.
    now rewrite <- !app_assoc. }
  split.
  - unfold Text.of_uchars. rewrite chars_of_chars.
    apply Forall_concat. rewrite Forall_forall. intros u Hu.
    assert (Hin : u ∈ Text.group (Text.chars chunk)).
    { rewrite Hseg'. apply elem_of_app. right. apply elem_of_app. now left. }
    assert (Hlink : link_char u = true).
    { pose proof (Forall_strip_chars _ _ Hg) as Hs'.
      rewrite Forall_forall in Hs'. now apply Hs'. }
    unfold link_char in Hlink. apply andb_true_iff in Hlink as [H1 H2].
    apply negb_true_iff in H1, H2.
    apply bool_decide_eq_false in H1, H2.
    rewrite Forall_forall. intros c Hc. split; intros ->.
    + apply H1. now apply (group_ascii_alone (Text.chars chunk)).
    + apply H2. now apply (group_ascii_alone (Text.chars chunk)).
  - unfold Text.strip, Text.uchars, Text.of_uchars. rewrite chars_of_chars.
    rewrite (group_segment _ _ _ _ Hseg'). now rewrite strip_chars_idempotent.
Qed.

End LinkShape.

Lemma article_link_is_clean_witness :
  Forall (fun c => c <> Text.dquote /\ c <> Text.newline) (Text.chars "https://a")
  /\ Text.strip "https://a" = "https://a".
Proof.
  apply (article_link_is_clean Retriever.two_links "https://a"). reflexivity.
Defined.

(** ** From the instruction files to the answers *)

Section IngestMore.
Import Py Retriever.
Variable encode : bool -> string -> vec.
Variable faiss : IndexFlatIP -> vec -> Z -> list Q * list Z.
Variable select_collection : string -> string.
Variable instructions_result :
  string -> list string -> list (list Q) -> list (list Z) -> result RetrievalResult.

Lemma omap_exclusive_length {A B} (f g : A -> option B) (l : list A) :
  (forall x, f x = None \/ g x = None) ->
  length (omap f l) + length (omap g l) <= length l.
Proof.
  intros Hex. unfold omap. induction l as [|x l IH]; simpl; [lia|].
  destruct (Hex x) as [H|H]; rewrite H; [destruct (g x) | destruct (f x)];
    simpl; lia.
Qed.

(** What a successful ingestion returns, in closed form. *)
Lemma ingest_result (files : list (string * string)) t ing :
  exec encode faiss (ingest_instructions files) = (t, Return ing) ->
  files <> []
  /\ all_chunks ing
     = imap (fun i file => instruction_chunk i (fst file) (snd file)) files
  /\ found_cengage_chunks ing
     = omap (fun '(i, file) =>
               if is_cengage (snd file)
               then Some (instruction_chunk i (fst file) (snd file)) else None)
         (imap (fun i file => (i, file)) files)
  /\ found_mcgraw_chunks ing
     = omap (fun '(i, file) =>
               if is_mcgraw (snd file)
               then Some (instruction_chunk i (fst file) (snd file)) else None)
         (imap (fun i file => (i, file)) files)
  /\ index_all ing = {| vectors := map (encode false) (all_chunks ing) |}
  /\ index_cengage ing
     = match found_cengage_chunks ing with
       | [] => None
       | _ :: _ => Some {| vectors := map (encode false) (found_cengage_chunks ing) |}
       end
  /\ index_mcgraw ing
     = match found_mcgraw_chunks ing with
       | [] => None
       | _ :: _ => Some {| vectors := map (encode false) (found_mcgraw_chunks ing) |}
       end.
Proof.
  unfold ingest_instructions. rewrite exec_bind, build_index_eq.
  destruct files as [|f files]; [discriminate|]. cbn [imap].
  rewrite exec_bind, build_index_if_any_eq.
  destruct (omap _ _) as [|c1 cengage];
    (rewrite exec_bind, build_index_if_any_eq;
     destruct (omap _ _) as [|c2 mcgraw]; simpl; intros [= _ <-]; simpl;
     repeat split; discriminate).
Qed.

(** Every index that ingestion builds holds one vector per chunk of its
    list, in the same order, and a platform without chunks gets no index. *)
Theorem ingest_keeps_indices_parallel (files : list (string * string)) t ing :
  exec encode faiss (ingest_instructions files) = (t, Return ing) ->
  vectors (index_all ing) = map (encode false) (all_chunks ing)
  /\ length (all_chunks ing) = length files
  /\ (forall index, index_cengage ing = Some index ->
        vectors index = map (encode false) (found_cengage_chunks ing)
        /\ found_cengage_chunks ing <> [])
  /\ (index_cengage ing = None -> found_cengage_chunks ing = [])
  /\ (forall index, index_mcgraw ing = Some index ->
        vectors index = map (encode false) (found_mcgraw_chunks ing)
        /\ found_mcgraw_chunks ing <> [])
  /\ (index_mcgraw ing = None -> found_mcgraw_chunks ing = []).
Proof.
  intros H. destruct (ingest_result files t ing H)
    as (_ & Hall & _ & _ & Hi & Hc & Hm).
  rewrite Hi, Hc, Hm. split; [reflexivity|].
  split; [now rewrite Hall, length_imap|].
  destruct (found_cengage_chunks ing); destruct (found_mcgraw_chunks ing);
    repeat split; intros; simplify_eq; simpl; done.
Qed.

(** A file lands in the full list always and in at most one platform
    list: the platform lists are drawn from the full list and together are
    no longer than it. *)
Theorem ingest_platform_lists (files : list (string * string)) t ing :
  exec encode faiss (ingest_instructions files) = (t, Return ing) ->
  (forall chunk, chunk ∈ found_cengage_chunks ing \/ chunk ∈ found_mcgraw_chunks ing ->
     exists i file, files !! i = Some file
                    /\ chunk = instruction_chunk i (fst file) (snd file)
                    /\ chunk ∈ all_chunks ing)
  /\ length (found_cengage_chunks ing) + length (found_mcgraw_chunks ing)
     <= length (all_chunks ing).
Proof.
  intros H. destruct (ingest_result files t ing H)
    as (_ & Hall & Hc & Hm & _).
  rewrite Hall, Hc, Hm. split.
  - intros chunk [Hin|Hin];
      apply list_elem_of_omap in Hin as ([i file] & Hin & Hf);
      apply elem_of_lookup_imap in Hin as (j & file' & [= -> ->] & Hlk);
      [destruct (is_cengage (snd file')) | destruct (is_mcgraw (snd file'))];
      try discriminate; injection Hf as <-;
      exists j, file'; (split; [exact Hlk|]); (split; [reflexivity|]);
      apply elem_of_lookup_imap; eauto.
  - rewrite length_imap, <- (length_imap (fun i file => (i, file)) files).
    apply omap_exclusive_length. intros [i file]. unfold is_mcgraw.
    destruct (is_cengage (snd file)); simpl; auto.
Qed.


End IngestMore.

Lemma ingest_keeps_indices_parallel_witness :
  exists t ing,
    Retriever.exec Retriever.sample_encode Retriever.search
      (Retriever.ingest_instructions Files.sample_files)
      = (t, Py.Return ing)
    /\ length (Retriever.all_chunks ing) = 3
    /\ length (Retriever.found_cengage_chunks ing) = 1.
Proof.
  eexists. eexists. split; [vm_compute; reflexivity|].
  split.
  - refine (proj1 (proj2 (ingest_keeps_indices_parallel Retriever.sample_encode
                            Retriever.search Files.sample_files _ _ _))).
    vm_compute. reflexivity.
  - reflexivity.
Defined.

Lemma ingest_platform_lists_witness :
  match Retriever.exec Retriever.sample_encode Retriever.search
      (Retriever.ingest_instructions Files.sample_files) with
  | (_, Py.Return ing) =>
      length (Retriever.found_cengage_chunks ing)
      + length (Retriever.found_mcgraw_chunks ing)
      <= length (Retriever.all_chunks ing)
  | (_, Py.Raise _) => False
  end.
Proof.
  destruct (Retriever.exec Retriever.sample_encode Retriever.search
      (Retriever.ingest_instructions Files.sample_files))
    as [t [ing|e]] eqn:E.
  - apply (proj2 (ingest_platform_lists Retriever.sample_encode
                    Retriever.search Files.sample_files t ing E)).
  - vm_compute in E. discriminate.
Defined.


(** ** Lines of a text *)

Section LinesFacts.
Import Lines.

Lemma split_chars_nonempty (l : list ascii) : split_chars l <> [].
Proof.
  destruct l as [|c l]; simpl; [discriminate|].
  destruct (Ascii.eqb c Text.newline); [discriminate|].
  destruct (split_chars l); discriminate.
Qed.

Lemma split_nonempty (text : string) : split text <> [].
Proof.
  unfold split. intros H. apply map_eq_nil in H.
  now apply split_chars_nonempty in H.
Qed.

Lemma join_cons (a : string) (l : list string) :
  l <> [] -> join (a :: l) = a +:+ String Text.newline (join l).
Proof. destruct l; [congruence | reflexivity]. Qed.

Lemma join_split_chars (l : list ascii) :
  join (map Text.of_chars (split_chars l)) = Text.of_chars l.
Proof.
  induction l as [|c l IH]; [reflexivity|]. simpl split_chars.
  destruct (Ascii.eqb c Text.newline) eqn:E.
  - apply Ascii.eqb_eq in E. subst c. rewrite map_cons, join_cons.
    + simpl. now rewrite IH.
    + intros H. apply map_eq_nil in H. now apply split_chars_nonempty in H.
  - destruct (split_chars l) as [|line rest] eqn:S.
    + now apply split_chars_nonempty in S.
    + simpl map in *. change (Text.of_chars (c :: line)) with (String c (Text.of_chars line)).
      change (Text.of_chars (c :: l)) with (String c (Text.of_chars l)).
      rewrite <- IH. destruct rest; reflexivity.
Qed.

Lemma join_split (text : string) : join (split text) = text.
Proof.
  unfold split. rewrite join_split_chars.
  apply string_of_list_ascii_of_string.
Qed.

Lemma join_snoc (B : list string) (x : string) :
  B <> [] -> join (B ++ [x]) = join B +:+ String Text.newline x.
Proof.
  induction B as [|b B IH]; [congruence|]. intros _.
  destruct B as [|b' B]; [reflexivity|].
  change ((b :: b' :: B) ++ [x]) with (b :: ((b' :: B) ++ [x])).
  rewrite !join_cons by (try discriminate; now destruct B).
  rewrite IH by discriminate. now rewrite append_assoc3.
Qed.

Lemma join_merge (A B R : list string) (x : string) :
  B <> [] ->
  join (A ++ join (B ++ [x]) :: R) = join (A ++ join B :: x :: R).
Proof.
  intros HB. induction A as [|a A IH].
  - simpl app. destruct R as [|r R].
    + now rewrite join_snoc.
    + rewrite !join_cons by discriminate. rewrite join_snoc by exact HB.
      now rewrite append_assoc3.
  - change (join (a :: (A ++ join (B ++ [x]) :: R)) =
            join (a :: (A ++ join B :: x :: R))).
    rewrite !join_cons by (now destruct A). now rewrite IH.
Qed.

Lemma split_chars_line (a b : list ascii) :
  Text.newline ∉ a ->
  split_chars (a ++ Text.newline :: b) = a :: split_chars b.
Proof.
  induction a as [|c a IH]; intros Ha.
  - reflexivity.
  - simpl. destruct (Ascii.eqb c Text.newline) eqn:E.
    + apply Ascii.eqb_eq in E. subst c. exfalso. apply Ha. left.
    + rewrite IH; [reflexivity|]. intros H. apply Ha. now right.
Qed.

Lemma split_chars_single (a : list ascii) :
  Text.newline ∉ a -> split_chars a = [a].
Proof.
  induction a as [|c a IH]; intros Ha; [reflexivity|].
  simpl. destruct (Ascii.eqb c Text.newline) eqn:E.
  - apply Ascii.eqb_eq in E. subst c. exfalso. apply Ha. left.
  - rewrite IH; [reflexivity|]. intros H. apply Ha. now right.
Qed.

Lemma split_chars_lines (l : list ascii) :
  Forall (fun line => Text.newline ∉ line) (split_chars l).
Proof.
  induction l as [|c l IH]; simpl.
  - constructor; [|constructor]. intros H. inversion H.
  - destruct (Ascii.eqb c Text.newline) eqn:E.
    + constructor; [|exact IH]. intros H. inversion H.
    + assert (Hc : forall line, Text.newline ∉ line -> Text.newline ∉ c :: line).
      { intros line Hline H. apply elem_of_cons in H as [H|H].
        - subst c. now rewrite Ascii.eqb_refl in E.
        - now apply Hline. }
      destruct (split_chars l) as [|line rest].
      * constructor; [|constructor]. apply Hc. intros H. inversion H.
      * inversion IH as [|? ? Hline Hrest]; subst.
        constructor; [now apply Hc | exact Hrest].
Qed.

Lemma split_lines (text : string) :
  Forall (fun line => Text.newline ∉ Text.chars line) (split text).
Proof.
  unfold split. apply Forall_map.
  eapply Forall_impl; [apply split_chars_lines|].
  intros l Hl. simpl. now rewrite chars_of_chars.
Qed.

Lemma hd_split_join (c : string) (cs : list string) :
  Text.newline ∉ Text.chars c -> hd "" (split (join (c :: cs))) = c.
Proof.
  intros Hc. destruct cs as [|c' cs].
  - simpl join. unfold split. rewrite split_chars_single by exact Hc.
    simpl. apply of_chars_chars.
  - rewrite join_cons by discriminate. unfold split.
    rewrite chars_app.
    change (Text.chars (String Text.newline (join (c' :: cs))))
      with (Text.newline :: Text.chars (join (c' :: cs))).
    rewrite split_chars_line by exact Hc. simpl. apply of_chars_chars.
Qed.

End LinesFacts.

(** ** Chunking an instruction file *)

Section ChunkingFacts.
Import Lines Chunking.

Lemma scan_join (lines sections current : list string) :
  join (scan lines sections current) = join (flush sections current ++ lines).
Proof.
  revert sections current.
  induction lines as [|line rest IH]; intros sections current; simpl scan.
  - now rewrite app_nil_r.
  - destruct (is_header line).
    + rewrite IH. simpl flush. now rewrite <- app_assoc.
    + rewrite IH. destruct current as [|c cs].
      * simpl. now rewrite <- app_assoc.
      * change (flush sections ((c :: cs) ++ [line]))
          with (sections ++ [join ((c :: cs) ++ [line])]).
        change (flush sections (c :: cs)) with (sections ++ [join (c :: cs)]).
        rewrite <- !app_assoc.
        exact (join_merge sections (c :: cs) rest line ltac:(discriminate)).
Qed.

Lemma scan_length (lines sections : list string) (c : string) (cs : list string) :
  length (scan lines sections (c :: cs))
  = length sections + 1 + count_headers lines.
Proof.
  revert sections c cs.
  induction lines as [|line rest IH]; intros sections c cs; simpl scan.
  - rewrite length_app. unfold count_headers. simpl. lia.
  - unfold count_headers in *. simpl List.filter.
    destruct (is_header line) eqn:E.
    + rewrite IH. simpl flush. rewrite length_app. simpl. lia.
    + change ((c :: cs) ++ [line]) with (c :: (cs ++ [line])). now rewrite IH.
Qed.

Lemma flush_headed (sections current : list string) :
  Forall (fun s => is_header (hd "" (split s)) = true) (tl sections) ->
  (sections <> [] ->
   exists c cs, current = c :: cs /\ is_header c = true
                /\ Text.newline ∉ Text.chars c) ->
  Forall (fun s => is_header (hd "" (split s)) = true)
         (tl (flush sections current)).
Proof.
  intros H1 H2. destruct current as [|c cs]; [exact H1|].
  destruct sections as [|s ss]; [constructor|].
  change (tl (flush (s :: ss) (c :: cs))) with (ss ++ [join (c :: cs)]).
  simpl tl in H1. apply Forall_app. split; [exact H1|].
  constructor; [|constructor].
  destruct H2 as (c' & cs' & [= <- <-] & Hh & Hn); [discriminate|].
  now rewrite hd_split_join.
Qed.

Lemma scan_headed (lines sections current : list string) :
  Forall (fun line => Text.newline ∉ Text.chars line) lines ->
  Forall (fun s => is_header (hd "" (split s)) = true) (tl sections) ->
  (sections <> [] ->
   exists c cs, current = c :: cs /\ is_header c = true
                /\ Text.newline ∉ Text.chars c) ->
  Forall (fun s => is_header (hd "" (split s)) = true)
         (tl (scan lines sections current)).
Proof.
  revert sections current.
  induction lines as [|line rest IH]; intros sections current Hl H1 H2;
    simpl scan.
  - now apply flush_headed.
  - inversion Hl as [|? ? Hline Hrest]; subst.
    destruct (is_header line) eqn:E.
    + apply IH; [exact Hrest | now apply flush_headed |].
      intros _. now exists line, [].
    + apply IH; [exact Hrest | exact H1 |].
      intros Hs. destruct (H2 Hs) as (c & cs & -> & Hh & Hn).
      now exists c, (cs ++ [line]).
Qed.

(** Joining the sections with line breaks gives back the file: chunking
    drops no character and adds none. *)
Theorem chunk_sections_rejoin (text : string) :
  join (chunk_instruction_file text) = text.
Proof.
  unfold chunk_instruction_file. rewrite scan_join. simpl. apply join_split.
Qed.

(** There is one section per header line, and one more when the file does
    not open with a header; so there is always at least one. *)
Theorem chunk_section_count (text : string) :
  length (chunk_instruction_file text)
  = count_headers (split text)
    + (if is_header (hd "" (split text)) then 0 else 1)
  /\ chunk_instruction_file text <> [].
Proof.
  unfold chunk_instruction_file.
  destruct (split text) as [|l0 rest] eqn:S; [now apply split_nonempty in S|].
  assert (H : length (scan (l0 :: rest) [] []) = 1 + count_headers rest).
  { simpl scan. destruct (is_header l0); simpl flush;
      change ([] ++ [l0]) with [l0]; rewrite scan_length; simpl; lia. }
  split.
  - rewrite H. unfold count_headers. simpl.
    destruct (is_header l0); simpl; lia.
  - intros E. rewrite E in H. simpl in H. lia.
Qed.

(** Every section after the first opens with one of the three header
    lines. *)
Theorem chunk_later_sections_open_with_header (text : string) :
  Forall (fun s => is_header (hd "" (split s)) = true)
         (tl (chunk_instruction_file text)).
Proof.
  unfold chunk_instruction_file. apply scan_headed.
  - apply split_lines.
  - constructor.
  - intros H. now contradiction H.
Qed.

End ChunkingFacts.

(** ** Rendering a message *)

Section ChatMessageFacts.
Import ChatMessage.

Lemma find_close_unfold (s : list ascii) :
  find_close s =
  match Regex.strip_prefix stars s with
  | Some rest => Some ([], rest)
  | None =>
      match s with
      | c :: s' =>
          if dot c
          then match find_close s' with
               | Some (g, rest) => Some (c :: g, rest)
               | None => None
               end
          else None
      | [] => None
      end
  end.
Proof. destruct s; reflexivity. Qed.

Lemma next_bold_unfold (s : list ascii) :
  next_bold s =
  match (match Regex.strip_prefix stars s with
         | Some s' => find_close s'
         | None => None
         end) with
  | Some (g, rest) => Some ([], g, rest)
  | None =>
      match s with
      | c :: s' =>
          match next_bold s' with
          | Some (before, g, rest) => Some (c :: before, g, rest)
          | None => None
          end
      | [] => None
      end
  end.
Proof. destruct s; reflexivity. Qed.

Lemma find_close_spec (s g r : list ascii) :
  find_close s = Some (g, r) ->
  s = g ++ stars ++ r
  /\ Forall (fun c => dot c = true) g
  /\ Regex.find stars g = None.
Proof.
  revert g r. induction s as [|c s IH]; intros g r; rewrite find_close_unfold.
  - simpl. discriminate.
  - destruct (Regex.strip_prefix stars (c :: s)) as [rest|] eqn:E.
    + intros [= <- <-]. apply strip_prefix_Some in E.
      split; [exact E|]. split; [constructor | reflexivity].
    + destruct (dot c) eqn:D; [|discriminate].
      destruct (find_close s) as [[g' r']|] eqn:F; [|discriminate].
      intros [= <- <-]. destruct (IH _ _ eq_refl) as (Hs & Hd & Hf).
      split; [simpl; now rewrite Hs|]. split; [now constructor|].
      rewrite find_unfold, Hf.
      destruct (Regex.strip_prefix stars (c :: g')) as [x|] eqn:E2;
        [|reflexivity].
      apply strip_prefix_Some in E2. exfalso.
      assert (Hcs : c :: s = stars ++ (x ++ stars ++ r')).
      { rewrite Hs. change (c :: g' ++ stars ++ r') with ((c :: g') ++ stars ++ r').
        rewrite E2. now rewrite <- app_assoc. }
      rewrite Hcs, strip_prefix_app in E. discriminate.
Qed.

Lemma next_bold_spec (s b g r : list ascii) :
  next_bold s = Some (b, g, r) ->
  s = b ++ stars ++ g ++ stars ++ r
  /\ Forall (fun c => dot c = true) g
  /\ Regex.find stars g = None.
Proof.
  revert b g r. induction s as [|c s IH]; intros b g r;
    rewrite next_bold_unfold.
  - simpl. discriminate.
  - destruct (match Regex.strip_prefix stars (c :: s) with
              | Some s' => find_close s'
              | None => None
              end) as [[g0 r0]|] eqn:E.
    + intros [= <- <- <-].
      destruct (Regex.strip_prefix stars (c :: s)) as [s'|] eqn:E1;
        [|discriminate].
      apply strip_prefix_Some in E1.
      destruct (find_close_spec _ _ _ E) as (Hs & Hd & Hf).
      split; [|now split]. rewrite E1, Hs. reflexivity.
    + destruct (next_bold s) as [[[b' g'] r']|] eqn:F; [|discriminate].
      intros [= <- <- <-]. destruct (IH _ _ _ eq_refl) as (Hs & Hd & Hf).
      split; [|now split]. simpl. now rewrite Hs at 1.
Qed.

Lemma parts_loop_source (fuel : nat) (s : list ascii) :
  length s < fuel -> concat (map part_source (parts_loop fuel s)) = s.
Proof.
  revert s. induction fuel as [|fuel IH]; intros s Hs; [lia|].
  simpl parts_loop.
  destruct (next_bold s) as [[[b g] r]|] eqn:E.
  - destruct (next_bold_spec _ _ _ _ E) as (Hsrc & _ & _).
    assert (Hr : length r < fuel).
    { rewrite Hsrc in Hs. rewrite !length_app in Hs. simpl in Hs. lia. }
    rewrite map_app, concat_app, map_cons, concat_cons, (IH _ Hr).
    rewrite Hsrc.
    destruct b; cbn [map concat part_source];
      rewrite ?app_nil_r, <- ?app_assoc; reflexivity.
  - destruct s; [reflexivity|]. simpl. now rewrite app_nil_r.
Qed.

Lemma parts_of_source (line : string) :
  concat (map part_source (parts_of line)) = Text.chars line.
Proof.
  unfold parts_of. apply parts_loop_source. rewrite chars_length. lia.
Qed.

Lemma parts_loop_bold (fuel : nat) (s : list ascii) :
  Forall (fun t => Regex.find stars t = None /\ Forall (fun c => dot c = true) t)
         (bold_texts (parts_loop fuel s)).
Proof.
  revert s. induction fuel as [|fuel IH]; intros s; [constructor|].
  simpl parts_loop.
  destruct (next_bold s) as [[[b g] r]|] eqn:E.
  - destruct (next_bold_spec _ _ _ _ E) as (_ & Hd & Hf).
    assert (Hb : bold_texts ((match b with [] => [] | _ :: _ => [Plain b] end)
                             ++ Bold g :: parts_loop fuel r)
                 = g :: bold_texts (parts_loop fuel r))
      by (destruct b; reflexivity).
    rewrite Hb. constructor; [now split | apply IH].
  - destruct s; constructor.
Qed.

Lemma formatLine_source (line : string) :
  element_source (formatLine line) = line.
Proof.
  pose proof (parts_of_source line) as H. unfold formatLine.
  destruct (parts_of line) as [|p ps] eqn:P.
  - simpl in H. assert (line = "") as ->.
    { rewrite <- (of_chars_chars line), <- H. reflexivity. }
    reflexivity.
  - simpl andb. cbv iota.
    assert (Hc : content_source (Parts (p :: ps)) = line).
    { unfold content_source. rewrite H. apply of_chars_chars. }
    destruct (numbered (Js.trim line)); [exact Hc|].
    destruct (Js.startsWith (Js.trim line) bullet); exact Hc.
Qed.

(** Rendering loses nothing: the elements, with the stars put back around
    bold text and joined by line breaks, spell the message. *)
Theorem formatContent_keeps_text (text : string) :
  Lines.join (map element_source (formatContent text)) = text.
Proof.
  unfold formatContent. rewrite map_map.
  rewrite (map_ext _ (fun x => x) formatLine_source), map_id.
  apply join_split.
Qed.

(** A line becomes a line break exactly when it is empty: a line of blanks
    is rendered as a block holding the blanks. *)
Theorem formatLine_break_iff_empty (line : string) :
  formatLine line = Br <-> line = "".
Proof.
  split; [|now intros ->].
  pose proof (parts_of_source line) as H. unfold formatLine.
  destruct (parts_of line) as [|p ps] eqn:P.
  - intros _. rewrite <- (of_chars_chars line), <- H. reflexivity.
  - simpl andb. cbv iota.
    destruct (numbered (Js.trim line)); [discriminate|].
    destruct (Js.startsWith (Js.trim line) bullet); discriminate.
Qed.

(** Bold text never holds a pair of stars nor a line terminator. *)
Theorem bold_text_is_star_free (line : string) :
  Forall (fun t => Regex.find stars t = None /\ Forall (fun c => dot c = true) t)
         (bold_texts (parts_of line)).
Proof. apply parts_loop_bold. Qed.

End ChatMessageFacts.
